(** * yggd: startup and shutdown choreography of [cmd/yggd/main.go]

    The daemon's [app.Action] closure creates four components, wires seven
    signal subscriptions, starts eight goroutines and then blocks on the
    [quit] channel.  This development embeds that closure as an interleaving
    transition system: one program counter per goroutine whose body is in
    [main.go], the shared variable [err], the buffered channel [quit], the
    subscription channels returned by [Connect], and a log of every
    observable operation.  A scheduler chooses which goroutine takes the next
    step; the results of the calls into the [yggdrasil] package, the [json]
    package and the operating system are supplied by an environment record.

    Memory is taken to be sequentially consistent: every read of [err] sees
    the most recent write in the interleaving. *)

From Stdlib Require Import List String ZArith NArith Bool Lia.
From Stdlib.Strings Require Import Byte.
Import ListNotations.
Open Scope string_scope.
Open Scope list_scope.

(** ** Names taken from the source *)

(** The four components built at lines 90-108. *)
Inductive Component :=
| processManager | dispatcher | messageRouter | payloadProcessor.

(** The signal names passed to [Connect]. *)
Inductive Signal :=
| SignalProcessDie
| SignalMessageRecv
| SignalAssignmentCreate
| SignalWorkComplete
| SignalAssignmentReturn
| SignalDispatcherListen
| SignalProcessBootstrap.

(** The goroutines started with [go], in source order: five handler methods
    of the package and three closures. *)
Inductive Goroutine :=
| HandleProcessDieSignal
| HandleMessageRecvSignal
| HandleAssignmentCreateSignal
| HandleWorkCompleteSignal
| HandleAssignmentReturnSignal
| process_manager_routine
| dispatcher_routine
| message_router_routine.

(** Values of [os.Signal] named at line 88. *)
Inductive OsSig := SIGTERM | SIGINT | SIGKILL.

(** Functions called by the closure. *)
Inductive Fn :=
| ParseLevel
| New (c : Component)
| MkdirAll
| BootstrapWorkers
| ListenAndServe
| ConnectClient
| GetCanonicalFacts
| Marshal
| Publish
| Subscribe
| KillAllWorkers.

(** A Go [error] value that is not nil, identified by its message; a value of
    type [error] is an [option error], [None] being nil. *)
Definition error := string.

Definition bytes := list byte.

(** The mode [0755] given to [os.MkdirAll], in decimal. *)
Definition perm_0755 : N := 493.

Definition Signal_eqb (a b : Signal) : bool :=
  match a, b with
  | SignalProcessDie, SignalProcessDie
  | SignalMessageRecv, SignalMessageRecv
  | SignalAssignmentCreate, SignalAssignmentCreate
  | SignalWorkComplete, SignalWorkComplete
  | SignalAssignmentReturn, SignalAssignmentReturn
  | SignalDispatcherListen, SignalDispatcherListen
  | SignalProcessBootstrap, SignalProcessBootstrap => true
  | _, _ => false
  end.

Definition Goroutine_eqb (a b : Goroutine) : bool :=
  match a, b with
  | HandleProcessDieSignal, HandleProcessDieSignal
  | HandleMessageRecvSignal, HandleMessageRecvSignal
  | HandleAssignmentCreateSignal, HandleAssignmentCreateSignal
  | HandleWorkCompleteSignal, HandleWorkCompleteSignal
  | HandleAssignmentReturnSignal, HandleAssignmentReturnSignal
  | process_manager_routine, process_manager_routine
  | dispatcher_routine, dispatcher_routine
  | message_router_routine, message_router_routine => true
  | _, _ => false
  end.

Definition Component_eqb (a b : Component) : bool :=
  match a, b with
  | processManager, processManager
  | dispatcher, dispatcher
  | messageRouter, messageRouter
  | payloadProcessor, payloadProcessor => true
  | _, _ => false
  end.

Definition Fn_eqb (a b : Fn) : bool :=
  match a, b with
  | ParseLevel, ParseLevel
  | MkdirAll, MkdirAll
  | BootstrapWorkers, BootstrapWorkers
  | ListenAndServe, ListenAndServe
  | ConnectClient, ConnectClient
  | GetCanonicalFacts, GetCanonicalFacts
  | Marshal, Marshal
  | Publish, Publish
  | Subscribe, Subscribe
  | KillAllWorkers, KillAllWorkers => true
  | New c, New d => Component_eqb c d
  | _, _ => false
  end.

(** The component on which each signal is connected (lines 111-159). *)
Definition owner (sig : Signal) : Component :=
  match sig with
  | SignalProcessDie => processManager
  | SignalMessageRecv => messageRouter
  | SignalAssignmentCreate => payloadProcessor
  | SignalWorkComplete => dispatcher
  | SignalAssignmentReturn => payloadProcessor
  | SignalDispatcherListen => dispatcher
  | SignalProcessBootstrap => processManager
  end.

(** The goroutine that is handed the channel of each subscription. *)
Definition consumer (sig : Signal) : Goroutine :=
  match sig with
  | SignalProcessDie => HandleProcessDieSignal
  | SignalMessageRecv => HandleMessageRecvSignal
  | SignalAssignmentCreate => HandleAssignmentCreateSignal
  | SignalWorkComplete => HandleWorkCompleteSignal
  | SignalAssignmentReturn => HandleAssignmentReturnSignal
  | SignalDispatcherListen => process_manager_routine
  | SignalProcessBootstrap => message_router_routine
  end.

(** The channel a handler method of the package reads; the three closures
    are not handlers. *)
Definition handler_chan (g : Goroutine) : option Signal :=
  match g with
  | HandleProcessDieSignal => Some SignalProcessDie
  | HandleMessageRecvSignal => Some SignalMessageRecv
  | HandleAssignmentCreateSignal => Some SignalAssignmentCreate
  | HandleWorkCompleteSignal => Some SignalWorkComplete
  | HandleAssignmentReturnSignal => Some SignalAssignmentReturn
  | _ => None
  end.

(** ** Program counters *)

(** The five calls of the message-router closure, lines 166-189. *)
Inductive RouterCall :=
| KConnectClient | KGetCanonicalFacts | KMarshal | KPublish | KSubscribe.

Definition fn_of (k : RouterCall) : Fn :=
  match k with
  | KConnectClient => ConnectClient
  | KGetCanonicalFacts => GetCanonicalFacts
  | KMarshal => Marshal
  | KPublish => Publish
  | KSubscribe => Subscribe
  end.

(** Main goroutine, lines 80-202. *)
Inductive MainPc :=
| MParseLevel                       (* 80-85 *)
| MMakeQuit                         (* 87-88 *)
| MNew (c : Component)              (* 90-108 *)
| MConnect (sig : Signal)           (* 111 ... 159 *)
| MGo (g : Goroutine)               (* 112 ... 160 *)
| MRecvQuit                         (* 192 *)
| MKillAllWorkers                   (* 194, the call *)
| MKilling                          (* 194, inside the call *)
| MCheckErr                         (* 198 *)
| MExited (code : Z) (cause : option error).

(** Process-manager closure, lines 132-144. *)
Inductive PmPc :=
| PInit                             (* 133-134 *)
| PRecv                             (* 136 *)
| PMkdirAll                         (* 138-139 *)
| PBootstrapWorkers                 (* 140, the call *)
| PBootstrapping                    (* 140, inside the call *)
| PAssignErr (e : error)            (* 141 *)
| PSendQuit                         (* 142 *)
| PDone.

(** Dispatcher closure, lines 147-156. *)
Inductive DispPc :=
| DInit                             (* 148-149 *)
| DListenAndServe                   (* 151, the call *)
| DServing                          (* 151, inside the call *)
| DTrace (e : error)                (* 152 *)
| DAssignErr (e : error)            (* 153 *)
| DSendQuit                         (* 154 *)
| DDone.

(** Message-router closure, lines 160-190. *)
Inductive RouterPc :=
| RInit                             (* 161-162 *)
| RRecv                             (* 164 *)
| RCall (k : RouterCall)            (* 166, 171, 176, 181, 186: the call *)
| RIn (k : RouterCall)              (* inside the call *)
| RAssignErr (k : RouterCall) (e : error)  (* 167, 173, 178, 182, 187 *)
| RSendQuit (k : RouterCall)        (* 168, 174, 179, 183, 188 *)
| RDone.

(** Statement that follows the error check of call [k]: there is no
    [return] in any of the five error branches. *)
Definition router_next (k : RouterCall) : RouterPc :=
  match k with
  | KConnectClient => RCall KGetCanonicalFacts
  | KGetCanonicalFacts => RCall KMarshal
  | KMarshal => RCall KPublish
  | KPublish => RCall KSubscribe
  | KSubscribe => RDone
  end.

(** Statement that follows each constructor, each [Connect] and each [go]. *)
Definition after_new (c : Component) : MainPc :=
  match c with
  | processManager => MNew dispatcher
  | dispatcher => MNew messageRouter
  | messageRouter => MNew payloadProcessor
  | payloadProcessor => MConnect SignalProcessDie
  end.

Definition after_connect (sig : Signal) : MainPc := MGo (consumer sig).

Definition after_go (g : Goroutine) : MainPc :=
  match g with
  | HandleProcessDieSignal => MConnect SignalMessageRecv
  | HandleMessageRecvSignal => MConnect SignalAssignmentCreate
  | HandleAssignmentCreateSignal => MConnect SignalWorkComplete
  | HandleWorkCompleteSignal => MConnect SignalAssignmentReturn
  | HandleAssignmentReturnSignal => MConnect SignalDispatcherListen
  | process_manager_routine => MGo dispatcher_routine
  | dispatcher_routine => MConnect SignalProcessBootstrap
  | message_router_routine => MRecvQuit
  end.

(** ** Environment, events and state *)

Section Model.

(** [CanonicalFacts] is the record behind the pointer that
    [yggdrasil.GetCanonicalFacts] returns, and [Value] the [interface{}]
    payload carried by a signal.  Both types are declared in the package,
    outside [main.go], which never inspects them. *)
Context {CanonicalFacts Value : Type}.

(** What the world answers to each call.  Every call site of the closure is
    executed at most once per run, so one answer per site describes a run. *)
Record Env := {
  (** [filepath.Join(yggdrasil.LibexecDir, yggdrasil.LongName)], line 138 *)
  worker_dir : string;
  ParseLevel_result : option error;
  New_result : Component -> option error;
  BootstrapWorkers_result : option error;
  ListenAndServe_result : option error;
  ConnectClient_result : option error;
  (** a nil pointer is [None] *)
  GetCanonicalFacts_result : option CanonicalFacts * option error;
  json_Marshal : option CanonicalFacts -> bytes * option error;
  Publish_result : string -> bytes -> option error;
  Subscribe_result : option error;
  KillAllWorkers_result : option error
}.

(** Arguments of a logged call. *)
Inductive Args :=
| NoArgs
| ArgPath (p : string)
| ArgPathPerm (p : string) (perm : N)
| ArgFacts (f : option CanonicalFacts)
| ArgPublish (topic : string) (payload : bytes).

Inductive Event :=
| EvNotify                                          (* signal.Notify(quit, ...) *)
| EvConnect (c : Component) (sig : Signal)          (* c.Connect(sig) *)
| EvGo (g : Goroutine)                              (* go g *)
| EvEmit (sig : Signal) (v : Value) (delivered : bool)  (* a component publishes *)
| EvRecv (g : Goroutine) (sig : Signal) (v : option Value)
    (* <-c: a value, or the zero value of a closed channel *)
| EvClose (sig : Signal)                            (* the bus closes a handle *)
| EvCall (f : Fn) (a : Args)
| EvReturn (f : Fn) (r : option error)
| EvAssignErr (f : Fn) (e : error)                  (* err = localErr after f failed *)
| EvSendQuit (f : Fn)                               (* quit <- SIGTERM after f failed *)
| EvOsSignal (sg : OsSig) (delivered : bool)        (* the runtime forwards a signal *)
| EvRecvQuit (sg : OsSig)                           (* <-quit *)
| EvExit (code : Z) (cause : option error).

Record State := {
  main_pc : MainPc;
  pm_pc : PmPc;
  disp_pc : DispPc;
  router_pc : RouterPc;
  (** goroutines that a [go] statement has started *)
  started : Goroutine -> bool;
  (** the variable [err] of the closure, shared with the three goroutines *)
  err : option error;
  (** whether [signal.Notify] has registered [quit] *)
  notify : bool;
  (** contents of [quit], a channel with a buffer of one *)
  quit : list OsSig;
  (** the receive channel of each subscription; [None] before [Connect] *)
  subs : Signal -> option (list Value);
  (** whether the bus has closed the channel of a subscription *)
  closed : Signal -> bool;
  (** locals [facts] and [data] of the message-router closure *)
  facts : option CanonicalFacts;
  data : bytes;
  (** every operation so far, most recent first *)
  trace : list Event
}.

Definition init : State := {|
  main_pc := MParseLevel;
  pm_pc := PInit;
  disp_pc := DInit;
  router_pc := RInit;
  started := fun _ => false;
  err := None;
  notify := false;
  quit := [];
  subs := fun _ => None;
  closed := fun _ => false;
  facts := None;
  data := [];
  trace := []
|}.

Definition set_main (pc : MainPc) (s : State) : State :=
  {| main_pc := pc; pm_pc := pm_pc s; disp_pc := disp_pc s;
     router_pc := router_pc s; started := started s; err := err s;
     notify := notify s; quit := quit s; subs := subs s;
     closed := closed s; facts := facts s;
     data := data s; trace := trace s |}.

Definition set_pm (pc : PmPc) (s : State) : State :=
  {| main_pc := main_pc s; pm_pc := pc; disp_pc := disp_pc s;
     router_pc := router_pc s; started := started s; err := err s;
     notify := notify s; quit := quit s; subs := subs s;
     closed := closed s; facts := facts s;
     data := data s; trace := trace s |}.

Definition set_disp (pc : DispPc) (s : State) : State :=
  {| main_pc := main_pc s; pm_pc := pm_pc s; disp_pc := pc;
     router_pc := router_pc s; started := started s; err := err s;
     notify := notify s; quit := quit s; subs := subs s;
     closed := closed s; facts := facts s;
     data := data s; trace := trace s |}.

Definition set_router (pc : RouterPc) (s : State) : State :=
  {| main_pc := main_pc s; pm_pc := pm_pc s; disp_pc := disp_pc s;
     router_pc := pc; started := started s; err := err s;
     notify := notify s; quit := quit s; subs := subs s;
     closed := closed s; facts := facts s;
     data := data s; trace := trace s |}.

Definition set_started (g : Goroutine) (s : State) : State :=
  {| main_pc := main_pc s; pm_pc := pm_pc s; disp_pc := disp_pc s;
     router_pc := router_pc s;
     started := fun h => if Goroutine_eqb g h then true else started s h;
     err := err s; notify := notify s; quit := quit s; subs := subs s;
     closed := closed s; facts := facts s; data := data s;
     trace := trace s |}.

Definition set_err (e : option error) (s : State) : State :=
  {| main_pc := main_pc s; pm_pc := pm_pc s; disp_pc := disp_pc s;
     router_pc := router_pc s; started := started s; err := e;
     notify := notify s; quit := quit s; subs := subs s;
     closed := closed s; facts := facts s;
     data := data s; trace := trace s |}.

Definition set_notify (b : bool) (s : State) : State :=
  {| main_pc := main_pc s; pm_pc := pm_pc s; disp_pc := disp_pc s;
     router_pc := router_pc s; started := started s; err := err s;
     notify := b; quit := quit s; subs := subs s;
     closed := closed s; facts := facts s;
     data := data s; trace := trace s |}.

Definition set_quit (q : list OsSig) (s : State) : State :=
  {| main_pc := main_pc s; pm_pc := pm_pc s; disp_pc := disp_pc s;
     router_pc := router_pc s; started := started s; err := err s;
     notify := notify s; quit := q; subs := subs s;
     closed := closed s; facts := facts s;
     data := data s; trace := trace s |}.

Definition set_sub (sig : Signal) (c : option (list Value)) (s : State) : State :=
  {| main_pc := main_pc s; pm_pc := pm_pc s; disp_pc := disp_pc s;
     router_pc := router_pc s; started := started s; err := err s;
     notify := notify s; quit := quit s;
     subs := fun x => if Signal_eqb sig x then c else subs s x;
     closed := closed s; facts := facts s; data := data s;
     trace := trace s |}.

Definition set_closed (sig : Signal) (s : State) : State :=
  {| main_pc := main_pc s; pm_pc := pm_pc s; disp_pc := disp_pc s;
     router_pc := router_pc s; started := started s; err := err s;
     notify := notify s; quit := quit s; subs := subs s;
     closed := fun x => if Signal_eqb sig x then true else closed s x;
     facts := facts s; data := data s; trace := trace s |}.

Definition set_facts (f : option CanonicalFacts) (s : State) : State :=
  {| main_pc := main_pc s; pm_pc := pm_pc s; disp_pc := disp_pc s;
     router_pc := router_pc s; started := started s; err := err s;
     notify := notify s; quit := quit s; subs := subs s;
     closed := closed s; facts := f;
     data := data s; trace := trace s |}.

Definition set_data (d : bytes) (s : State) : State :=
  {| main_pc := main_pc s; pm_pc := pm_pc s; disp_pc := disp_pc s;
     router_pc := router_pc s; started := started s; err := err s;
     notify := notify s; quit := quit s; subs := subs s;
     closed := closed s; facts := facts s;
     data := d; trace := trace s |}.

Definition log (e : Event) (s : State) : State :=
  {| main_pc := main_pc s; pm_pc := pm_pc s; disp_pc := disp_pc s;
     router_pc := router_pc s; started := started s; err := err s;
     notify := notify s; quit := quit s; subs := subs s;
     closed := closed s; facts := facts s;
     data := data s; trace := e :: trace s |}.

(** ** The main goroutine *)

(** [return cli.NewExitError(err, 1)] and [return nil] end [app.Run]; the
    process then exits through [log.Fatal] with status 1, or with status 0. *)
Definition exit (code : Z) (cause : option error) (s : State) : State :=
  log (EvExit code cause) (set_main (MExited code cause) s).

(** [x, err := f(); if err != nil { return cli.NewExitError(err, 1) }],
    lines 80-83 and 90-108. *)
Definition main_try (f : Fn) (r : option error) (next : MainPc) (s : State)
  : State :=
  let s1 := log (EvReturn f r) (log (EvCall f NoArgs) (set_err r s)) in
  match r with
  | Some e => exit 1 (Some e) s1
  | None => set_main next s1
  end.

Definition step_main (env : Env) (s : State) : option State :=
  match main_pc s with
  | MParseLevel =>
      Some (main_try ParseLevel (ParseLevel_result env) MMakeQuit s)
  | MMakeQuit =>
      Some (log EvNotify
              (set_notify true (set_quit [] (set_main (MNew processManager) s))))
  | MNew c => Some (main_try (New c) (New_result env c) (after_new c) s)
  | MConnect sig =>
      Some (log (EvConnect (owner sig) sig)
              (set_sub sig (Some []) (set_main (after_connect sig) s)))
  | MGo g => Some (log (EvGo g) (set_started g (set_main (after_go g) s)))
  | MRecvQuit =>
      match quit s with
      | sg :: q =>
          Some (log (EvRecvQuit sg) (set_quit q (set_main MKillAllWorkers s)))
      | [] => None
      end
  | MKillAllWorkers =>
      Some (log (EvCall KillAllWorkers NoArgs) (set_main MKilling s))
  | MKilling =>
      let r := KillAllWorkers_result env in
      let s1 := log (EvReturn KillAllWorkers r) s in
      match r with
      | Some e => Some (exit 1 (Some e) s1)
      | None => Some (set_main MCheckErr s1)
      end
  | MCheckErr =>
      match err s with
      | Some e => Some (exit 1 (Some e) s)
      | None => Some (exit 0 None s)
      end
  | MExited _ _ => None
  end.

(** ** The three closures *)

(** [make(chan os.Signal, 1)] *)
Definition quit_cap : nat := 1.

(** [quit <- syscall.SIGTERM]: blocks while the buffer is full. *)
Definition send_quit (f : Fn) (s : State) : option State :=
  if Nat.ltb (List.length (quit s)) quit_cap
  then Some (log (EvSendQuit f) (set_quit (quit s ++ [SIGTERM]) s))
  else None.

(** [<-c] on the channel of subscription [sig]: a value that was delivered
    is taken first; on a channel that is closed and empty the receive
    returns at once with the zero value; otherwise it blocks.  [main.go]
    never closes the channel, the bus of the package may. *)
Definition recv (g : Goroutine) (sig : Signal) (s : State) : option State :=
  match subs s sig with
  | Some (v :: q) =>
      Some (log (EvRecv g sig (Some v)) (set_sub sig (Some q) s))
  | Some [] =>
      if closed s sig then Some (log (EvRecv g sig None) s) else None
  | None => None
  end.

Definition step_pm (env : Env) (s : State) : option State :=
  match pm_pc s with
  | PInit => Some (set_pm PRecv s)
  | PRecv =>
      option_map (set_pm PMkdirAll)
        (recv process_manager_routine SignalDispatcherListen s)
  | PMkdirAll =>
      Some (log (EvCall MkdirAll (ArgPathPerm (worker_dir env) perm_0755))
              (set_pm PBootstrapWorkers s))
  | PBootstrapWorkers =>
      Some (log (EvCall BootstrapWorkers (ArgPath (worker_dir env)))
              (set_pm PBootstrapping s))
  | PBootstrapping =>
      let r := BootstrapWorkers_result env in
      Some (log (EvReturn BootstrapWorkers r)
              (set_pm (match r with Some e => PAssignErr e | None => PDone end) s))
  | PAssignErr e =>
      Some (log (EvAssignErr BootstrapWorkers e)
              (set_err (Some e) (set_pm PSendQuit s)))
  | PSendQuit => option_map (set_pm PDone) (send_quit BootstrapWorkers s)
  | PDone => None
  end.

Definition step_disp (env : Env) (s : State) : option State :=
  match disp_pc s with
  | DInit => Some (set_disp DListenAndServe s)
  | DListenAndServe =>
      Some (log (EvCall ListenAndServe NoArgs) (set_disp DServing s))
  | DServing =>
      let r := ListenAndServe_result env in
      Some (log (EvReturn ListenAndServe r)
              (set_disp (match r with Some e => DTrace e | None => DDone end) s))
  | DTrace e => Some (set_disp (DAssignErr e) s)
  | DAssignErr e =>
      Some (log (EvAssignErr ListenAndServe e)
              (set_err (Some e) (set_disp DSendQuit s)))
  | DSendQuit => option_map (set_disp DDone) (send_quit ListenAndServe s)
  | DDone => None
  end.

(** The call made at [RCall k], with the arguments it is given. *)
Definition router_call (k : RouterCall) (s : State) : Event :=
  EvCall (fn_of k)
    match k with
    | KMarshal => ArgFacts (facts s)
    | KPublish => ArgPublish "handshake" (data s)
    | _ => NoArgs
    end.

(** The error returned by call [k] and the locals it assigns. *)
Definition router_return (env : Env) (k : RouterCall) (s : State)
  : option error * State :=
  match k with
  | KConnectClient => (ConnectClient_result env, s)
  | KGetCanonicalFacts =>
      (snd (GetCanonicalFacts_result env),
       set_facts (fst (GetCanonicalFacts_result env)) s)
  | KMarshal =>
      (snd (json_Marshal env (facts s)),
       set_data (fst (json_Marshal env (facts s))) s)
  | KPublish => (Publish_result env "handshake" (data s), s)
  | KSubscribe => (Subscribe_result env, s)
  end.

Definition step_router (env : Env) (s : State) : option State :=
  match router_pc s with
  | RInit => Some (set_router RRecv s)
  | RRecv =>
      option_map (set_router (RCall KConnectClient))
        (recv message_router_routine SignalProcessBootstrap s)
  | RCall k => Some (log (router_call k s) (set_router (RIn k) s))
  | RIn k =>
      let r := fst (router_return env k s) in
      Some (log (EvReturn (fn_of k) r)
              (set_router
                 (match r with Some e => RAssignErr k e | None => router_next k end)
                 (snd (router_return env k s))))
  | RAssignErr k e =>
      Some (log (EvAssignErr (fn_of k) e)
              (set_err (Some e) (set_router (RSendQuit k) s)))
  | RSendQuit k =>
      option_map (set_router (router_next k)) (send_quit (fn_of k) s)
  | RDone => None
  end.

(** ** The package and the operating system *)

(** Modelled from the spec: the bodies of the five [Handle...Signal] methods
    are in the [yggdrasil] package, outside [main.go].  Each wiring is
    "subscribe to signal X, and on every delivery invoke a handler on
    component Y", so a started handler takes each value delivered on its
    channel, and nothing else. *)
Definition step_handler (g : Goroutine) (s : State) : option State :=
  match handler_chan g with
  | Some sig =>
      match subs s sig with
      | Some (v :: q) =>
          Some (log (EvRecv g sig (Some v)) (set_sub sig (Some q) s))
      | _ => None
      end
  | None => None
  end.

(** A goroutine runs only after its [go] statement. *)
Definition step_go (env : Env) (g : Goroutine) (s : State) : option State :=
  if started s g then
    match g with
    | process_manager_routine => step_pm env s
    | dispatcher_routine => step_disp env s
    | message_router_routine => step_router env s
    | _ => step_handler g s
    end
  else None.

(** Modelled from the spec: the event bus of the package is outside
    [main.go].  A published value is appended to the channel of the
    subscriber (deliveries to one subscriber are first in, first out); with
    no subscriber, or once the handle is closed, the value is dropped, not
    buffered. *)
Definition emit (sig : Signal) (v : Value) (s : State) : State :=
  match subs s sig with
  | Some q =>
      if closed s sig then log (EvEmit sig v false) s
      else log (EvEmit sig v true) (set_sub sig (Some (q ++ [v])) s)
  | None => log (EvEmit sig v false) s
  end.

(** Modelled from the spec: a subscription handle is closed by the bus of
    the package, "only on process bus teardown"; when that happens in a run
    is not fixed here.  A handle is closed at most once. *)
Definition close (sig : Signal) (s : State) : option State :=
  match subs s sig with
  | Some _ =>
      if closed s sig then None
      else Some (log (EvClose sig) (set_closed sig s))
  | None => None
  end.

(** [signal.Notify] forwards [SIGTERM] and [SIGINT] to [quit] without
    blocking: a signal that finds the buffer full is dropped.  [SIGKILL] is
    never forwarded, and a signal that arrives before [signal.Notify] has
    its default disposition; both end the process outside this model. *)
Definition deliver (sg : OsSig) (s : State) : option State :=
  match sg with
  | SIGKILL => None
  | _ =>
      if notify s then
        if Nat.ltb (List.length (quit s)) quit_cap
        then Some (log (EvOsSignal sg true) (set_quit (quit s ++ [sg]) s))
        else Some (log (EvOsSignal sg false) s)
      else None
  end.

(** ** Interleaving *)

Inductive Thread := Main | Go (g : Goroutine).

Inductive Action :=
| Run (t : Thread)                 (* a goroutine takes its next step *)
| Emit (sig : Signal) (v : Value)  (* a component publishes [v] under [sig] *)
| Close (sig : Signal)             (* the bus closes a subscription handle *)
| Deliver (sg : OsSig).            (* the host sends a signal to the process *)

(** When the package may publish is decided by a policy, a parameter of the
    transition system. *)
Definition Policy := State -> Signal -> bool.

Definition exited (s : State) : bool :=
  match main_pc s with
  | MExited _ _ => true
  | _ => false
  end.

(** Once the main goroutine has returned the process is gone and nothing
    runs any more. *)
Definition step (env : Env) (pol : Policy) (a : Action) (s : State)
  : option State :=
  if exited s then None
  else
    match a with
    | Run Main => step_main env s
    | Run (Go g) => step_go env g s
    | Emit sig v => if pol s sig then Some (emit sig v s) else None
    | Close sig => close sig s
    | Deliver sg => deliver sg s
    end.

Fixpoint exec (env : Env) (pol : Policy) (sched : list Action) (s : State)
  : option State :=
  match sched with
  | [] => Some s
  | a :: rest =>
      match step env pol a s with
      | Some s' => exec env pol rest s'
      | None => None
      end
  end.

Definition Reachable (env : Env) (pol : Policy) (s : State) : Prop :=
  exists sched, exec env pol sched init = Some s.

(** The package may publish at any time. *)
Definition any_time : Policy := fun _ _ => true.

(** ** Reading a trace *)

Definition is_call (f : Fn) (e : Event) : bool :=
  match e with
  | EvCall g _ => Fn_eqb f g
  | _ => false
  end.

Definition is_return (f : Fn) (e : Event) : bool :=
  match e with
  | EvReturn g _ => Fn_eqb f g
  | _ => false
  end.

(** [f] returned an error that is not nil. *)
Definition is_failure (f : Fn) (e : Event) : bool :=
  match e with
  | EvReturn g (Some _) => Fn_eqb f g
  | _ => false
  end.

Definition is_recv (g : Goroutine) (sig : Signal) (e : Event) : bool :=
  match e with
  | EvRecv h x _ => Goroutine_eqb g h && Signal_eqb sig x
  | _ => false
  end.

(** [<-c] returned a value that had been delivered. *)
Definition is_recv_value (g : Goroutine) (sig : Signal) (e : Event) : bool :=
  match e with
  | EvRecv h x (Some _) => Goroutine_eqb g h && Signal_eqb sig x
  | _ => false
  end.

(** [<-c] returned because the channel is closed. *)
Definition is_recv_closed (g : Goroutine) (sig : Signal) (e : Event) : bool :=
  match e with
  | EvRecv h x None => Goroutine_eqb g h && Signal_eqb sig x
  | _ => false
  end.

Definition is_close (sig : Signal) (e : Event) : bool :=
  match e with
  | EvClose x => Signal_eqb sig x
  | _ => false
  end.

(** A published value that reached the subscriber's channel. *)
Definition is_delivered (sig : Signal) (e : Event) : bool :=
  match e with
  | EvEmit x _ true => Signal_eqb sig x
  | _ => false
  end.

Definition is_connect (sig : Signal) (e : Event) : bool :=
  match e with
  | EvConnect _ x => Signal_eqb sig x
  | _ => false
  end.

Definition is_emit (sig : Signal) (e : Event) : bool :=
  match e with
  | EvEmit x _ _ => Signal_eqb sig x
  | _ => false
  end.

Definition is_dropped (sig : Signal) (e : Event) : bool :=
  match e with
  | EvEmit x _ false => Signal_eqb sig x
  | _ => false
  end.

Definition is_assign (e : Event) : bool :=
  match e with
  | EvAssignErr _ _ => true
  | _ => false
  end.

Definition is_send_quit (f : Fn) (e : Event) : bool :=
  match e with
  | EvSendQuit g => Fn_eqb f g
  | _ => false
  end.

Definition is_any_send_quit (e : Event) : bool :=
  match e with
  | EvSendQuit _ => true
  | _ => false
  end.

Definition is_recv_quit (e : Event) : bool :=
  match e with
  | EvRecvQuit _ => true
  | _ => false
  end.

(** [os.MkdirAll(p, 0755)] with [p] the worker directory. *)
Definition is_mkdir_worker_dir (env : Env) (e : Event) : bool :=
  match e with
  | EvCall MkdirAll (ArgPathPerm p m) =>
      String.eqb p (worker_dir env) && N.eqb m perm_0755
  | _ => false
  end.

Definition occurs (p : Event -> bool) (tr : list Event) : bool := existsb p tr.

Definition count (p : Event -> bool) (tr : list Event) : nat :=
  List.length (filter p tr).

(** Every event satisfying [q] has an older event satisfying [p]; the trace
    has the most recent event first. *)
Definition each_after (p q : Event -> bool) (tr : list Event) : Prop :=
  forall newer e older,
    tr = newer ++ e :: older -> q e = true -> occurs p older = true.

(** The error most recently assigned to [err] by a goroutine. *)
Fixpoint last_assigned (tr : list Event) : option error :=
  match tr with
  | [] => None
  | EvAssignErr _ e :: _ => Some e
  | _ :: older => last_assigned older
  end.

(** The first error assigned to [err] by a goroutine. *)
Definition first_assigned (tr : list Event) : option error :=
  last_assigned (rev tr).

(** The first call that returned an error, with that error. *)
Fixpoint last_failure (tr : list Event) : option (Fn * error) :=
  match tr with
  | [] => None
  | EvReturn f (Some e) :: _ => Some (f, e)
  | _ :: older => last_failure older
  end.

Definition first_failure (tr : list Event) : option (Fn * error) :=
  last_failure (rev tr).

(** Exit status of a process that has exited. *)
Definition exit_status (s : State) : option (Z * option error) :=
  match main_pc s with
  | MExited code cause => Some (code, cause)
  | _ => None
  end.

(** A termination request is in [quit] or has been taken out of it. *)
Definition shutdown_requested (s : State) : Prop :=
  quit s <> [] \/ occurs is_recv_quit (trace s) = true.

(** ** Positions in the code *)

(** The main goroutine has not yet reached the first [Connect]. *)
Definition main_early (pc : MainPc) : bool :=
  match pc with
  | MParseLevel | MMakeQuit | MNew _ => true
  | _ => false
  end.

Definition pm_past_recv (pc : PmPc) : bool :=
  match pc with
  | PInit | PRecv => false
  | _ => true
  end.

Definition pm_past_mkdir (pc : PmPc) : bool :=
  match pc with
  | PInit | PRecv | PMkdirAll => false
  | _ => true
  end.

Definition router_past_recv (pc : RouterPc) : bool :=
  match pc with
  | RInit | RRecv => false
  | _ => true
  end.

Definition RouterCall_eqb (a b : RouterCall) : bool :=
  match a, b with
  | KConnectClient, KConnectClient
  | KGetCanonicalFacts, KGetCanonicalFacts
  | KMarshal, KMarshal
  | KPublish, KPublish
  | KSubscribe, KSubscribe => true
  | _, _ => false
  end.

Definition call_index (k : RouterCall) : nat :=
  match k with
  | KConnectClient => 0
  | KGetCanonicalFacts => 1
  | KMarshal => 2
  | KPublish => 3
  | KSubscribe => 4
  end.

(** At [pc] the message-router closure has already made call [k]. *)
Definition router_called (pc : RouterPc) (k : RouterCall) : bool :=
  match pc with
  | RInit | RRecv => false
  | RCall j => Nat.ltb (call_index k) (call_index j)
  | RIn j | RAssignErr j _ | RSendQuit j =>
      Nat.leb (call_index k) (call_index j)
  | RDone => true
  end.

(** At [pc] call [k] of the message-router closure has returned. *)
Definition router_returned (pc : RouterPc) (k : RouterCall) : bool :=
  match pc with
  | RInit | RRecv => false
  | RCall j | RIn j => Nat.ltb (call_index k) (call_index j)
  | RAssignErr j _ | RSendQuit j => Nat.leb (call_index k) (call_index j)
  | RDone => true
  end.

(** A property of all five calls of the closure. *)
Definition each_call (P : RouterCall -> Prop) : Prop :=
  P KConnectClient /\ P KGetCanonicalFacts /\ P KMarshal /\ P KPublish /\
  P KSubscribe.

(** ** What the claims speak about *)

(** The start of worker bootstrap: creating the directory, calling
    [BootstrapWorkers]. *)
Definition bootstrap_start (e : Event) : bool :=
  is_call MkdirAll e || is_call BootstrapWorkers e.

(** The start of the broker sequence: connect, handshake, subscribe. *)
Definition broker_start (e : Event) : bool :=
  is_call ConnectClient e || is_call Publish e || is_call Subscribe e.

(** The bytes that [json.Marshal] makes of the facts returned by
    [GetCanonicalFacts]. *)
Definition handshake_payload (env : Env) : bytes :=
  fst (json_Marshal env (fst (GetCanonicalFacts_result env))).

Definition handshake_call (env : Env) : Event :=
  EvCall Publish (ArgPublish "handshake" (handshake_payload env)).

Definition bootstrap_call (env : Env) : Event :=
  EvCall BootstrapWorkers (ArgPath (worker_dir env)).

(** Every constructor and [ParseLevel] succeed, so the closure gets as far
    as the wiring. *)
Definition startup_ok (env : Env) : bool :=
  match ParseLevel_result env with
  | None =>
      forallb
        (fun c => match New_result env c with None => true | Some _ => false end)
        [processManager; dispatcher; messageRouter; payloadProcessor]
  | Some _ => false
  end.

(** Lines 194-202: the status with which the closure returns once
    [KillAllWorkers] has been called, given the value [e] of [err]. *)
Definition final_status (env : Env) (e : option error) : Z * option error :=
  match KillAllWorkers_result env with
  | Some k => (1%Z, Some k)
  | None =>
      match e with
      | Some x => (1%Z, Some x)
      | None => (0%Z, None)
      end
  end.

(** The errors that the goroutines answer with [err = ...; quit <- ...]. *)
Definition handled (f : Fn) : bool :=
  match f with
  | BootstrapWorkers | ListenAndServe | ConnectClient | GetCanonicalFacts
  | Marshal | Publish | Subscribe => true
  | _ => false
  end.

(** The errors the specification calls component-level. *)
Definition component_level (f : Fn) : bool :=
  match f with
  | BootstrapWorkers | ListenAndServe | ConnectClient | Subscribe => true
  | _ => false
  end.

Definition router_site (f : Fn) : option RouterCall :=
  match f with
  | ConnectClient => Some KConnectClient
  | GetCanonicalFacts => Some KGetCanonicalFacts
  | Marshal => Some KMarshal
  | Publish => Some KPublish
  | Subscribe => Some KSubscribe
  | _ => None
  end.

(** The goroutine whose call to [f] returned [e] is between the return and
    the assignment [err = e]. *)
Definition at_assign (f : Fn) (e : error) (s : State) : Prop :=
  match f with
  | BootstrapWorkers => pm_pc s = PAssignErr e
  | ListenAndServe => disp_pc s = DTrace e \/ disp_pc s = DAssignErr e
  | _ =>
      match router_site f with
      | Some k => router_pc s = RAssignErr k e
      | None => False
      end
  end.

(** That goroutine is at its [quit <- syscall.SIGTERM]. *)
Definition at_send (f : Fn) (s : State) : Prop :=
  match f with
  | BootstrapWorkers => pm_pc s = PSendQuit
  | ListenAndServe => disp_pc s = DSendQuit
  | _ =>
      match router_site f with
      | Some k => router_pc s = RSendQuit k
      | None => False
      end
  end.

(** The goroutine that calls [f]. *)
Definition caller (f : Fn) : Thread :=
  match f with
  | MkdirAll | BootstrapWorkers => Go process_manager_routine
  | ListenAndServe => Go dispatcher_routine
  | ConnectClient | GetCanonicalFacts | Marshal | Publish | Subscribe =>
      Go message_router_routine
  | _ => Main
  end.

(** ** Invariants *)

(** Before the wiring nothing else has run. *)
Definition inv_early (s : State) : Prop :=
  main_early (main_pc s) = true ->
  (forall g, started s g = false) /\
  err s = None /\
  last_assigned (trace s) = None /\
  occurs is_recv_quit (trace s) = false /\
  occurs is_any_send_quit (trace s) = false.

(** A goroutine that has moved has been started. *)
Definition inv_started (s : State) : Prop :=
  (started s process_manager_routine = false -> pm_pc s = PInit) /\
  (started s dispatcher_routine = false -> disp_pc s = DInit) /\
  (started s message_router_routine = false -> router_pc s = RInit) /\
  match main_pc s with
  | MExited _ _ =>
      occurs is_recv_quit (trace s) = false -> forall g, started s g = false
  | MKillAllWorkers | MKilling | MCheckErr =>
      occurs is_recv_quit (trace s) = true
  | _ => True
  end.

(** [err] holds the most recent assignment, and the exit status is computed
    from it. *)
Definition inv_err (env : Env) (s : State) : Prop :=
  match main_pc s with
  | MExited code cause =>
      occurs is_recv_quit (trace s) = true ->
      (code, cause) = final_status env (last_assigned (trace s))
  | MCheckErr =>
      KillAllWorkers_result env = None /\ err s = last_assigned (trace s)
  | _ => err s = last_assigned (trace s)
  end.

(** How often [quit] has been read and [KillAllWorkers] called. *)
Definition inv_quit (env : Env) (s : State) : Prop :=
  let nr := count is_recv_quit (trace s) in
  let nk := count (is_call KillAllWorkers) (trace s) in
  match main_pc s with
  | MExited _ _ =>
      (nr = 0 /\ nk = 0 /\ startup_ok env = false) \/ (nr = 1 /\ nk = 1)
  | MKillAllWorkers => nr = 1 /\ nk = 0
  | MKilling | MCheckErr => nr = 1 /\ nk = 1
  | _ => nr = 0 /\ nk = 0
  end.

(** A value waiting in a subscription channel was published, and a channel
    that counts as closed was closed. *)
Definition inv_chan (sig : Signal) (s : State) : Prop :=
  match subs s sig with
  | Some (_ :: _) => occurs (is_delivered sig) (trace s) = true
  | _ => True
  end /\
  (closed s sig = true -> occurs (is_close sig) (trace s) = true).

(** The process-manager closure. *)
Definition inv_pm (env : Env) (s : State) : Prop :=
  inv_chan SignalDispatcherListen s /\
  each_after (is_delivered SignalDispatcherListen)
    (is_recv_value process_manager_routine SignalDispatcherListen)
    (trace s) /\
  each_after (is_close SignalDispatcherListen)
    (is_recv_closed process_manager_routine SignalDispatcherListen)
    (trace s) /\
  each_after (is_recv process_manager_routine SignalDispatcherListen)
    bootstrap_start (trace s) /\
  each_after (is_mkdir_worker_dir env) (is_call BootstrapWorkers) (trace s) /\
  Forall (fun e => is_call BootstrapWorkers e = true -> e = bootstrap_call env)
    (trace s) /\
  (pm_past_recv (pm_pc s) = true ->
   occurs (is_recv process_manager_routine SignalDispatcherListen) (trace s)
   = true) /\
  (pm_past_mkdir (pm_pc s) = true ->
   occurs (is_mkdir_worker_dir env) (trace s) = true).

(** The message-router closure. *)
Definition inv_router (env : Env) (s : State) : Prop :=
  inv_chan SignalProcessBootstrap s /\
  each_after (is_delivered SignalProcessBootstrap)
    (is_recv_value message_router_routine SignalProcessBootstrap)
    (trace s) /\
  each_after (is_close SignalProcessBootstrap)
    (is_recv_closed message_router_routine SignalProcessBootstrap)
    (trace s) /\
  each_after (is_recv message_router_routine SignalProcessBootstrap)
    broker_start (trace s) /\
  (router_past_recv (router_pc s) = true ->
   occurs (is_recv message_router_routine SignalProcessBootstrap) (trace s)
   = true) /\
  each_call (fun k =>
    occurs (is_call (fn_of k)) (trace s) = router_called (router_pc s) k) /\
  each_call (fun k =>
    occurs (is_return (fn_of k)) (trace s) = router_returned (router_pc s) k) /\
  count (is_call Publish) (trace s)
  = (if router_called (router_pc s) KPublish then 1 else 0) /\
  (router_returned (router_pc s) KGetCanonicalFacts = true ->
   facts s = fst (GetCanonicalFacts_result env)) /\
  (router_returned (router_pc s) KMarshal = true ->
   data s = handshake_payload env) /\
  Forall (fun e => is_call Publish e = true -> e = handshake_call env)
    (trace s) /\
  each_after (is_return ConnectClient) (is_call Publish) (trace s) /\
  each_after (is_return ConnectClient) (is_call GetCanonicalFacts) (trace s) /\
  each_after (is_return GetCanonicalFacts) (is_call Marshal) (trace s) /\
  each_after (is_return Marshal) (is_call Publish) (trace s) /\
  each_after (is_return Publish) (is_call Subscribe) (trace s).

(** A failed call is followed by the assignment and the send. *)
Definition inv_fail (s : State) : Prop :=
  forall f e,
    handled f = true ->
    In (EvReturn f (Some e)) (trace s) ->
    at_assign f e s \/
    (In (EvAssignErr f e) (trace s) /\
     (at_send f s \/ In (EvSendQuit f) (trace s))).

(** A completed send leaves a request in [quit] until the main goroutine
    takes one out. *)
Definition inv_shutdown (s : State) : Prop :=
  occurs is_any_send_quit (trace s) = true -> shutdown_requested s.

(** A call that has returned was made by a started goroutine. *)
Definition inv_ran (s : State) : Prop :=
  forall f r,
    handled f = true ->
    In (EvReturn f r) (trace s) ->
    match caller f with
    | Go g => started s g = true
    | Main => True
    end.

(** Everything above at once. *)
Definition inv (env : Env) (s : State) : Prop :=
  inv_early s /\ inv_started s /\ inv_err env s /\ inv_quit env s /\
  inv_pm env s /\ inv_router env s /\ inv_fail s /\ inv_shutdown s /\
  inv_ran s.

(** Number of steps the main goroutine needs from [pc] to the call of
    [KillAllWorkers], once the wiring has begun and a termination request
    is there. *)
Definition steps_to_kill (pc : MainPc) : nat :=
  match pc with
  | MConnect SignalProcessDie => 17
  | MGo HandleProcessDieSignal => 16
  | MConnect SignalMessageRecv => 15
  | MGo HandleMessageRecvSignal => 14
  | MConnect SignalAssignmentCreate => 13
  | MGo HandleAssignmentCreateSignal => 12
  | MConnect SignalWorkComplete => 11
  | MGo HandleWorkCompleteSignal => 10
  | MConnect SignalAssignmentReturn => 9
  | MGo HandleAssignmentReturnSignal => 8
  | MConnect SignalDispatcherListen => 7
  | MGo process_manager_routine => 6
  | MGo dispatcher_routine => 5
  | MConnect SignalProcessBootstrap => 4
  | MGo message_router_routine => 3
  | MRecvQuit => 2
  | MKillAllWorkers => 1
  | _ => 0
  end.

(** ** Readings of the specification that the code does not meet *)

(** "The first error wins": the cause reported at exit is the first error
    assigned by a failing path. *)
Definition first_error_wins (env : Env) (pol : Policy) : Prop :=
  forall s code cause e,
    Reachable env pol s ->
    exit_status s = Some (code, cause) ->
    occurs is_recv_quit (trace s) = true ->
    first_assigned (trace s) = Some e ->
    cause = Some e.

(** "Exits non-zero reporting the first fatal error's cause when shutdown
    was triggered by a fatal error." *)
Definition exit_reports_first_failure (env : Env) (pol : Policy) : Prop :=
  forall s code cause f e,
    Reachable env pol s ->
    exit_status s = Some (code, cause) ->
    first_failure (trace s) = Some (f, e) ->
    code <> 0%Z /\ cause = Some e.

(** "The handshake is published after [ConnectClient] succeeds." *)
Definition handshake_needs_connection (env : Env) (pol : Policy) : Prop :=
  forall s,
    Reachable env pol s ->
    occurs (is_call Publish) (trace s) = true ->
    ConnectClient_result env = None.

(** "Creating the directory is not a separate step performed by the caller
    of [BootstrapWorkers]." *)
Definition caller_creates_no_directory (env : Env) (pol : Policy) : Prop :=
  forall s,
    Reachable env pol s -> occurs (is_call MkdirAll) (trace s) = false.

(** "If [ConnectClient] returns an error the closure still runs ... and
    [Subscribe]": from wherever the failure has happened, some continuation
    calls [Subscribe]. *)
Definition router_still_subscribes (env : Env) (pol : Policy) : Prop :=
  forall s e,
    Reachable env pol s ->
    In (EvReturn ConnectClient (Some e)) (trace s) ->
    exists sched s',
      exec env pol sched s = Some s' /\
      occurs (is_call Subscribe) (trace s') = true.

(** The main goroutine has taken its one value out of [quit], the buffer is
    full again and the message-router closure waits to send after [k]. *)
Definition router_stuck (k : RouterCall) (s : State) : Prop :=
  router_pc s = RSendQuit k /\
  quit s <> [] /\
  match main_pc s with
  | MKillAllWorkers | MKilling | MCheckErr | MExited _ _ => True
  | _ => False
  end.

(** State reached by a schedule; the initial state if the schedule asks a
    blocked goroutine to move. *)
Definition final (env : Env) (pol : Policy) (sched : list Action) : State :=
  match exec env pol sched init with
  | Some s => s
  | None => init
  end.

End Model.

(** ** Concrete runs *)

(** The facts are a host name here and signal payloads are numbers. *)
Definition env_ok : @Env string := {|
  worker_dir := "/usr/libexec/yggdrasil";
  ParseLevel_result := None;
  New_result := fun _ => None;
  BootstrapWorkers_result := None;
  ListenAndServe_result := None;
  ConnectClient_result := None;
  GetCanonicalFacts_result := (Some "host-1", None);
  json_Marshal := fun f =>
    match f with
    | Some _ => ([x7b; x7d], None)
    | None => ([x6e; x75; x6c; x6c], None)
    end;
  Publish_result := fun _ _ => None;
  Subscribe_result := None;
  KillAllWorkers_result := None
|}.

Definition with_failures (boot listen connect publish subscribe : option error)
  : @Env string := {|
  worker_dir := worker_dir env_ok;
  ParseLevel_result := None;
  New_result := fun _ => None;
  BootstrapWorkers_result := boot;
  ListenAndServe_result := listen;
  ConnectClient_result := connect;
  GetCanonicalFacts_result := GetCanonicalFacts_result env_ok;
  json_Marshal := json_Marshal env_ok;
  Publish_result := fun _ _ => publish;
  Subscribe_result := subscribe;
  KillAllWorkers_result := None
|}.

Definition run_main : @Action nat := Run Main.
Definition run_pm : @Action nat := Run (Go process_manager_routine).
Definition run_disp : @Action nat := Run (Go dispatcher_routine).
Definition run_router : @Action nat := Run (Go message_router_routine).

(** Lines 80-160: the main goroutine runs up to [<-quit]. *)
Definition wiring : list (@Action nat) := repeat run_main 21.

(** The dispatcher starts listening and announces it; the process manager
    takes the announcement, creates the directory and calls
    [BootstrapWorkers], which announces the bootstrap. *)
Definition listen_and_bootstrap : list (@Action nat) :=
  [run_disp; run_disp; Emit SignalDispatcherListen 1;
   run_pm; run_pm; run_pm; run_pm; Emit SignalProcessBootstrap 2].

(** The message-router closure from [<-c] to the return of [Publish]. *)
Definition connect_and_publish (connect_fails : bool) : list (@Action nat) :=
  [run_router; run_router; run_router; run_router] ++
  (if connect_fails then [run_router; run_router] else []) ++
  [run_router; run_router; run_router; run_router; run_router; run_router].

(** [<-quit], [KillAllWorkers], the check of [err]. *)
Definition shutdown : list (@Action nat) :=
  [run_main; run_main; run_main; run_main].

(** [ListenAndServe] fails, then [BootstrapWorkers] fails; the main goroutine
    wakes up after both. *)
Definition env_listen_then_bootstrap : @Env string :=
  with_failures (Some "bootstrap") (Some "listen") None None None.

Definition sched_listen_then_bootstrap : list (@Action nat) :=
  wiring ++
  [run_disp; run_disp; Emit SignalDispatcherListen 1;
   run_disp; run_disp; run_disp; run_disp;
   run_pm; run_pm; run_pm; run_pm; run_pm; run_pm] ++
  shutdown.

(** [ConnectClient] fails, then [Publish] fails. *)
Definition env_connect_then_publish : @Env string :=
  with_failures None None (Some "connect") (Some "publish") None.

Definition sched_connect_then_publish : list (@Action nat) :=
  wiring ++ listen_and_bootstrap ++ [run_pm] ++
  connect_and_publish true ++ [run_router] ++ shutdown.

(** [ConnectClient] fails and nothing else does. *)
Definition env_connect_fails : @Env string :=
  with_failures None None (Some "connect") None None.

Definition sched_connect_fails : list (@Action nat) :=
  wiring ++ listen_and_bootstrap ++ connect_and_publish true.

(** The host sends [SIGTERM] right after the wiring and the main goroutine
    takes it; then [ConnectClient] and [Publish] fail. *)
Definition sched_signal_then_failures : list (@Action nat) :=
  wiring ++ [Deliver SIGTERM; run_main] ++ listen_and_bootstrap ++
  connect_and_publish true ++ [run_router].

(** Everything succeeds and the host ends the daemon with [SIGINT]. *)
Definition sched_clean : list (@Action nat) :=
  wiring ++ listen_and_bootstrap ++ [run_pm] ++ connect_and_publish false ++
  [run_router; run_router] ++ [Deliver SIGINT] ++ shutdown.

(** [ListenAndServe] fails while the host sends [SIGTERM]: the signal fills
    the buffer, the dispatcher closure waits at its send until the main
    goroutine has read. *)
Definition env_listen_fails : @Env string :=
  with_failures None (Some "listen") None None None.

Definition sched_race : list (@Action nat) :=
  wiring ++
  [run_disp; run_disp; run_disp; run_disp; run_disp;
   Deliver SIGTERM; run_main; run_disp; run_main; run_main; run_main].

(** ** When the package publishes *)

Section Publishing.

Context {CanonicalFacts Value : Type}.

(** Modelled from the spec: the code that publishes is in the [yggdrasil]
    package, outside [main.go].  The dispatcher emits listen-ready once
    [ListenAndServe] has begun; the process manager publishes its lifecycle
    signals (bootstrap, process-died) from [BootstrapWorkers] on; inbound
    broker messages are delivered once [Subscribe] has been called; the
    payload processor publishes assignment-create on a message it received
    and assignment-return on a completion it received; the dispatcher
    publishes work-complete while it serves or when it is told of a process
    that died. *)
Definition publish_when_running : @Policy CanonicalFacts Value :=
  fun s sig =>
    match sig with
    | SignalDispatcherListen => occurs (is_call ListenAndServe) (trace s)
    | SignalProcessBootstrap => occurs (is_call BootstrapWorkers) (trace s)
    | SignalProcessDie => occurs (is_call BootstrapWorkers) (trace s)
    | SignalMessageRecv => occurs (is_call Subscribe) (trace s)
    | SignalAssignmentCreate =>
        occurs (is_recv HandleMessageRecvSignal SignalMessageRecv) (trace s)
    | SignalWorkComplete =>
        occurs (is_call ListenAndServe) (trace s)
        || occurs (is_recv HandleProcessDieSignal SignalProcessDie) (trace s)
    | SignalAssignmentReturn =>
        occurs (is_recv HandleWorkCompleteSignal SignalWorkComplete) (trace s)
    end.

(** From [s] to [s'] no goroutine other than the main one has moved, and
    nothing was taken out of the trace. *)
Definition keeps_goroutines (s s' : @State CanonicalFacts Value) : Prop :=
  pm_pc s' = pm_pc s /\ disp_pc s' = disp_pc s /\
  router_pc s' = router_pc s /\ incl (trace s) (trace s').

End Publishing.

(** The main goroutine is slow: it has started the process-manager and the
    dispatcher closures (line 147) but has not yet executed line 159 when the
    dispatcher announces that it listens and [BootstrapWorkers] announces the
    bootstrap.  Then the main goroutine connects and starts the
    message-router closure. *)
Definition sched_early_bootstrap : list (@Action nat) :=
  repeat run_main 19 ++
  [run_disp; run_disp; Emit SignalDispatcherListen 1;
   run_pm; run_pm; run_pm; run_pm; Emit SignalProcessBootstrap 2; run_pm] ++
  [run_main; run_main; run_router].

(** The bus is torn down while the process-manager closure waits at its
    receive: the handle is closed, the receive returns without a value and
    the closure goes on to [os.MkdirAll] and [BootstrapWorkers]. *)
Definition sched_closed_listen : list (@Action nat) :=
  wiring ++
  [run_pm; Close SignalDispatcherListen; run_pm; run_pm; run_pm; run_pm].

(** [ListenAndServe] has just returned its error: the dispatcher closure is
    at line 151, the main goroutine at [<-quit]. *)
Definition state_listen_failed : @State string nat :=
  final env_listen_fails any_time (wiring ++ [run_disp; run_disp; run_disp]).

(** ** The prologue of the closure, lines 65-79 *)

(** The two generators of the command-line library that the prologue can
    select. *)
Inductive GenerationFunc := ToMan | ToMarkdown.

(** How the prologue ends: it returns after generating, it calls a nil
    function value, or it falls through to line 80. *)
Inductive Prologue :=
| Returned (printed : option string) (result : option error)
| NilCall
| FallThrough.

(** Lines 65-79.  [generate_man_page] and [generate_markdown] are the two
    hidden flags, [run] what the selected generator returns.  The variable
    [generationFunc] starts as nil and is set by the inner [if]/[else if]. *)
Definition prologue (generate_man_page generate_markdown : bool)
    (run : GenerationFunc -> string * option error) : Prologue :=
  if generate_man_page || generate_markdown then
    let generationFunc :=
      if generate_man_page then Some ToMan
      else if generate_markdown then Some ToMarkdown
      else None in
    match generationFunc with
    | None => NilCall
    | Some g =>
        match snd (run g) with
        | Some e => Returned None (Some e)
        | None => Returned (Some (fst (run g))) None
        end
    end
  else FallThrough.

(** ** More readings of a trace *)

Section MoreDefinitions.

Context {CanonicalFacts Value : Type}.

#[local] Abbreviation Env := (@Env CanonicalFacts).
#[local] Abbreviation State := (@State CanonicalFacts Value).
#[local] Abbreviation Event := (@Event CanonicalFacts Value).

Definition is_go (g : Goroutine) (e : Event) : bool :=
  match e with
  | EvGo h => Goroutine_eqb g h
  | _ => false
  end.

Definition is_any_connect (e : Event) : bool :=
  match e with
  | EvConnect _ _ => true
  | _ => false
  end.

Definition is_any_go (e : Event) : bool :=
  match e with
  | EvGo _ => true
  | _ => false
  end.

(** A signal of the host that [signal.Notify] put into [quit]. *)
Definition is_forwarded (e : Event) : bool :=
  match e with
  | EvOsSignal _ true => true
  | _ => false
  end.

(** [err = localErr] after a failure of [f]. *)
Definition is_assign_after (f : Fn) (e : Event) : bool :=
  match e with
  | EvAssignErr g _ => Fn_eqb f g
  | _ => false
  end.

(** Position of each [Connect] and of each [go] in lines 111-160. *)
Definition connect_line (sig : Signal) : nat :=
  match sig with
  | SignalProcessDie => 111
  | SignalMessageRecv => 115
  | SignalAssignmentCreate => 119
  | SignalWorkComplete => 123
  | SignalAssignmentReturn => 127
  | SignalDispatcherListen => 131
  | SignalProcessBootstrap => 159
  end.

Definition go_line (g : Goroutine) : nat :=
  match g with
  | HandleProcessDieSignal => 112
  | HandleMessageRecvSignal => 116
  | HandleAssignmentCreateSignal => 120
  | HandleWorkCompleteSignal => 124
  | HandleAssignmentReturnSignal => 128
  | process_manager_routine => 132
  | dispatcher_routine => 147
  | message_router_routine => 160
  end.

(** Line at which the main goroutine is, while it wires. *)
Definition main_line (pc : MainPc) : nat :=
  match pc with
  | MParseLevel => 80
  | MMakeQuit => 87
  | MNew _ => 90
  | MConnect sig => connect_line sig
  | MGo g => go_line g
  | MRecvQuit => 192
  | MKillAllWorkers | MKilling => 194
  | MCheckErr => 198
  | MExited _ _ => 0
  end.

(** The first of [ParseLevel] and the four constructors, in source order,
    that fails. *)
Definition first_startup_failure (env : Env) : option error :=
  match ParseLevel_result env with
  | Some e => Some e
  | None =>
      match New_result env processManager with
      | Some e => Some e
      | None =>
          match New_result env dispatcher with
          | Some e => Some e
          | None =>
              match New_result env messageRouter with
              | Some e => Some e
              | None => New_result env payloadProcessor
              end
          end
      end
  end.

(** No call of the run fails. *)
Definition env_clean (env : Env) : Prop :=
  ParseLevel_result env = None /\
  (forall c, New_result env c = None) /\
  BootstrapWorkers_result env = None /\
  ListenAndServe_result env = None /\
  ConnectClient_result env = None /\
  snd (GetCanonicalFacts_result env) = None /\
  (forall f, snd (json_Marshal env f) = None) /\
  (forall topic payload, Publish_result env topic payload = None) /\
  Subscribe_result env = None /\
  KillAllWorkers_result env = None.

(** The main goroutine has read [quit] and the buffer is full again. *)
Definition drained (s : State) : Prop :=
  quit s <> [] /\
  match main_pc s with
  | MKillAllWorkers | MKilling | MCheckErr | MExited _ _ => True
  | _ => False
  end.

(** ** More invariants *)

(** Every termination request that got into [quit] is still there or was
    read. *)
Definition inv_requests (s : State) : Prop :=
  count is_any_send_quit (trace s) + count is_forwarded (trace s)
  = List.length (quit s) + count is_recv_quit (trace s) /\
  List.length (quit s) <= 1 /\
  (match main_pc s with MParseLevel | MMakeQuit => True | _ => False end ->
   notify s = false /\
   quit s = [] /\ count is_any_send_quit (trace s) = 0 /\
   count is_forwarded (trace s) = 0 /\ count is_recv_quit (trace s) = 0 /\
   forall g, started s g = false).

(** Line [a] comes before line [b]. *)
Definition before (a b : nat) : bool := Nat.ltb a b.

(** What the main goroutine has connected stays connected, and a goroutine
    is started only past the lines before its [go]. *)
Definition inv_wiring (s : State) : Prop :=
  (forall sig,
     before (connect_line sig) (main_line (main_pc s)) = true ->
     subs s sig <> None /\ occurs (is_connect sig) (trace s) = true) /\
  (forall g sig,
     started s g = true ->
     before (connect_line sig) (go_line g) = true ->
     subs s sig <> None) /\
  (forall g,
     before (go_line g) (main_line (main_pc s)) = true ->
     occurs (is_go g) (trace s) = true) /\
  (forall g sig,
     before (connect_line sig) (go_line g) = true ->
     each_after (is_connect sig) (is_go g) (trace s)) /\
  (forall g sig,
     before (go_line g) (connect_line sig) = true ->
     each_after (is_go g) (is_connect sig) (trace s)).

Definition b2n (b : bool) : nat := if b then 1 else 0.

Definition pm_called (pc : PmPc) : bool :=
  match pc with
  | PInit | PRecv | PMkdirAll | PBootstrapWorkers => false
  | _ => true
  end.

Definition disp_called (pc : DispPc) : bool :=
  match pc with
  | DInit | DListenAndServe => false
  | _ => true
  end.

(** Each call site of the three closures has been executed once or not at
    all. *)
Definition inv_once (s : State) : Prop :=
  count (is_call MkdirAll) (trace s) = b2n (pm_past_mkdir (pm_pc s)) /\
  count (is_call BootstrapWorkers) (trace s) = b2n (pm_called (pm_pc s)) /\
  count (is_call ListenAndServe) (trace s) = b2n (disp_called (disp_pc s)) /\
  each_call (fun k =>
    count (is_call (fn_of k)) (trace s)
    = b2n (router_called (router_pc s) k)).

(** Assignments and sends happen only after a failure. *)
Definition inv_cause (s : State) : Prop :=
  (forall f e, at_assign f e s -> In (EvReturn f (Some e)) (trace s)) /\
  (forall f, at_send f s -> occurs (is_assign_after f) (trace s) = true) /\
  (forall f, each_after (is_failure f) (is_assign_after f) (trace s)) /\
  (forall f, each_after (is_assign_after f) (is_send_quit f) (trace s)) /\
  (forall f e,
     In (EvAssignErr f e) (trace s) -> In (EvReturn f (Some e)) (trace s)).

(** In a run without failures no goroutine is ever in an error branch. *)
Definition inv_clean (s : State) : Prop :=
  err s = None /\
  occurs is_assign (trace s) = false /\
  occurs is_any_send_quit (trace s) = false /\
  match pm_pc s with PAssignErr _ | PSendQuit => False | _ => True end /\
  match disp_pc s with
  | DTrace _ | DAssignErr _ | DSendQuit => False
  | _ => True
  end /\
  match router_pc s with
  | RAssignErr _ _ | RSendQuit _ => False
  | _ => True
  end.

(** An exit before the wiring reports the first startup failure. *)
Definition inv_startup (env : Env) (s : State) : Prop :=
  match main_pc s with
  | MParseLevel => True
  | MMakeQuit => ParseLevel_result env = None
  | MNew processManager => ParseLevel_result env = None
  | MNew dispatcher =>
      ParseLevel_result env = None /\ New_result env processManager = None
  | MNew messageRouter =>
      ParseLevel_result env = None /\ New_result env processManager = None /\
      New_result env dispatcher = None
  | MNew payloadProcessor =>
      ParseLevel_result env = None /\ New_result env processManager = None /\
      New_result env dispatcher = None /\ New_result env messageRouter = None
  | MExited code cause =>
      occurs is_recv_quit (trace s) = false ->
      code = 1%Z /\ cause = first_startup_failure env /\ cause <> None /\
      occurs is_any_connect (trace s) = false /\
      occurs is_any_go (trace s) = false /\
      occurs (is_call KillAllWorkers) (trace s) = false
  | _ => True
  end /\
  (main_early (main_pc s) = true ->
   occurs is_any_connect (trace s) = false /\
   occurs is_any_go (trace s) = false /\
   occurs (is_call KillAllWorkers) (trace s) = false).

(** The main goroutine reads [quit] only when the wiring is complete. *)
Definition inv_wired (s : State) : Prop :=
  occurs is_recv_quit (trace s) = true ->
  (forall sig, occurs (is_connect sig) (trace s) = true) /\
  (forall g, occurs (is_go g) (trace s) = true).

(** The calls made by the three closures and by the shutdown sequence. *)
Definition daemon_calls : list Fn :=
  [MkdirAll; BootstrapWorkers; ListenAndServe; ConnectClient;
   GetCanonicalFacts; Marshal; Publish; Subscribe; KillAllWorkers].

(** The invariants of this part at once. *)
Definition inv_more (env : Env) (s : State) : Prop :=
  inv_requests s /\ inv_once s /\ inv_startup env s /\ inv_cause s /\
  inv_wiring s /\ inv_wired s.

End MoreDefinitions.

Arguments before : simpl never.

(** [NewDispatcher] fails: the closure returns at line 97. *)
Definition env_no_dispatcher : @Env string := {|
  worker_dir := worker_dir env_ok;
  ParseLevel_result := None;
  New_result := fun c =>
    match c with
    | dispatcher => Some "dispatcher"
    | messageRouter => Some "router"
    | _ => None
    end;
  BootstrapWorkers_result := None;
  ListenAndServe_result := None;
  ConnectClient_result := None;
  GetCanonicalFacts_result := GetCanonicalFacts_result env_ok;
  json_Marshal := json_Marshal env_ok;
  Publish_result := fun _ _ => None;
  Subscribe_result := None;
  KillAllWorkers_result := None
|}.

Definition sched_no_dispatcher : list (@Action nat) := repeat run_main 4.

(** After the run of [sched_signal_then_failures]: the host sends another
    signal and the main goroutine goes through [KillAllWorkers]. *)
Definition sched_after_drain : list (@Action nat) :=
  [Deliver SIGINT; run_main; run_main; run_pm].
(** * Proofs *)

Section Reachability.

Context {CanonicalFacts Value : Type}.
Variable env : @Env CanonicalFacts.
Variable pol : @Policy CanonicalFacts Value.

#[local] Abbreviation State := (@State CanonicalFacts Value).
#[local] Abbreviation Event := (@Event CanonicalFacts Value).

(** ** Reachability *)

Lemma exec_app (l1 l2 : list Action) (s : State) :
  exec env pol (l1 ++ l2) s =
  match exec env pol l1 s with
  | Some s1 => exec env pol l2 s1
  | None => None
  end.
Proof.
  revert s; induction l1 as [|a l1 IH]; intros s; simpl; [reflexivity|].
  destruct (step env pol a s); [apply IH | reflexivity].
Qed.

Lemma exec_preserves (P : State -> Prop) :
  (forall a s s', P s -> step env pol a s = Some s' -> P s') ->
  forall sched s s', P s -> exec env pol sched s = Some s' -> P s'.
Proof.
  intros Hstep sched; induction sched as [|a sched IH]; intros s s' Hs He.
  - simpl in He. injection He as <-. exact Hs.
  - simpl in He. destruct (step env pol a s) as [s1|] eqn:E; [|discriminate].
    eapply IH; [eapply Hstep; eassumption | exact He].
Qed.

Lemma reachable_ind (P : State -> Prop) :
  P init ->
  (forall a s s', P s -> step env pol a s = Some s' -> P s') ->
  forall s, Reachable env pol s -> P s.
Proof.
  intros H0 Hstep s [sched He]. eapply exec_preserves; eassumption.
Qed.

Lemma reachable_step (a : Action) (s s' : State) :
  Reachable env pol s -> step env pol a s = Some s' -> Reachable env pol s'.
Proof.
  intros [sched He] Hs. exists (sched ++ [a]).
  rewrite exec_app, He. simpl. rewrite Hs. reflexivity.
Qed.

(** ** Traces *)

Lemma each_after_nil (p q : Event -> bool) : each_after p q [].
Proof.
  intros newer e older H. destruct newer; discriminate.
Qed.

Lemma each_after_cons (p q : Event -> bool) (e : Event) (tr : list Event) :
  each_after p q tr ->
  (q e = true -> occurs p tr = true) ->
  each_after p q (e :: tr).
Proof.
  intros Htr He newer x older Heq Hq.
  destruct newer as [|y newer]; simpl in Heq; injection Heq as -> ->.
  - auto.
  - eapply Htr; eauto.
Qed.

Lemma each_after_skip (p q : Event -> bool) (e : Event) (tr : list Event) :
  each_after p q tr -> q e = false -> each_after p q (e :: tr).
Proof.
  intros Htr He. apply each_after_cons; [exact Htr | congruence].
Qed.

End Reachability.

(** Case analysis on one step: every way [step] can succeed, with the
    resulting state written out. *)
Ltac break_match H :=
  match type of H with
  | context [match ?x with _ => _ end] =>
      match x with
      | context [match _ with _ => _ end] => fail 1
      | _ => first [is_var x; destruct x | destruct x eqn:?]
      end
  end.

Ltac clean_eqs :=
  repeat match goal with
    | E : Some _ = Some _ |- _ => injection E as E; try subst
    | E : (_, _) = (_, _) |- _ => injection E as ? ?; try subst
    | E : Some _ = None |- _ => discriminate E
    | E : None = Some _ |- _ => discriminate E
    end.

Ltac split_vars :=
  repeat match goal with
    | k : RouterCall |- _ => destruct k
    | x : Signal |- _ => destruct x
    | g : Goroutine |- _ => destruct g
    | c : Component |- _ => destruct c
    | sg : OsSig |- _ => destruct sg
    end.

Ltac step_cases s H :=
  destruct s; cbn in *;
  unfold step, step_go, step_main, step_pm, step_disp, step_router,
    step_handler, deliver, emit, close, recv, send_quit, main_try, exit,
    option_map
    in H;
  cbn in H;
  repeat (break_match H; try discriminate H);
  injection H as <-;
  split_vars;
  cbn in *; clean_eqs; cbn in *.

Ltac use_hyps :=
  repeat match goal with
    | H : true = true -> _ |- _ => specialize (H eq_refl)
    | H : ?P -> _, H' : ?P |- _ => specialize (H H')
    | H : _ /\ _ |- _ => destruct H
    | H : false = true |- _ => discriminate H
    | H : true = false |- _ => discriminate H
    | H : forall g, ?f g = false, E : ?f _ = true |- _ =>
        rewrite H in E; discriminate E
    end.

Ltac finish :=
  intros; use_hyps; cbn in *;
  repeat match goal with |- _ /\ _ => split end;
  repeat match goal with
    | H : _ = true |- _ => rewrite H
    end;
  rewrite ?orb_true_r, ?String.eqb_refl; cbn;
  try congruence; auto.

Ltac rewrite_matches :=
  repeat match goal with
    | E : ?x = _ |- context [match ?x with _ => _ end] => rewrite E
    | E : _ = ?x |- context [match ?x with _ => _ end] => rewrite <- E
    end.

Ltac by_main :=
  match goal with m : MainPc |- _ => destruct m end; cbn in *.

Ltac trace_step :=
  repeat (apply each_after_cons; [| cbn; finish]);
  try assumption.

Ltac solve_step :=
  finish;
  try (rewrite_matches; finish; fail);
  try (match goal with |- match ?x with _ => _ end => destruct x end;
       finish; fail);
  try (by_main; finish; fail).

Ltac trace_goal :=
  match goal with
  | |- each_after _ _ _ => trace_step
  | |- Forall _ _ =>
      repeat (constructor; [cbn; finish|]); try assumption
  | |- _ => idtac
  end.

Ltac fail_case H1 :=
  let f := fresh "f" in
  let e := fresh "e" in
  let Hh := fresh "Hh" in
  let Hin := fresh "Hin" in
  let Hf := fresh "Hf" in
  intros f e Hh Hin;
  pose proof (H1 f e Hh) as Hf;
  destruct f; try discriminate Hh; cbn in *;
  intuition (try discriminate; try congruence).

Section Invariants.

Context {CanonicalFacts Value : Type}.
Variable env : @Env CanonicalFacts.
Variable pol : @Policy CanonicalFacts Value.

#[local] Abbreviation State := (@State CanonicalFacts Value).
#[local] Abbreviation Event := (@Event CanonicalFacts Value).

Lemma inv_early_step a s s' :
  inv_early s -> step env pol a s = Some s' -> inv_early s'.
Proof.
  unfold inv_early. intros H1 H.
  step_cases s H.
  all: try (intros; discriminate).
  all: finish.
Qed.

Lemma inv_started_step a s s' :
  inv_early s -> inv_started s -> step env pol a s = Some s' -> inv_started s'.
Proof.
  unfold inv_early, inv_started. intros H0 H1 H.
  step_cases s H.
  all: finish.
Qed.

Lemma inv_err_step a s s' :
  inv_early s -> inv_started s -> inv_err env s ->
  step env pol a s = Some s' -> inv_err env s'.
Proof.
  unfold inv_early, inv_started, inv_err. intros H0 H1 H2 H.
  step_cases s H.
  all: unfold final_status in *.
  all: solve_step.
Qed.

Lemma startup_ok_results :
  startup_ok env = true ->
  ParseLevel_result env = None /\ forall c, New_result env c = None.
Proof.
  unfold startup_ok. destruct (ParseLevel_result env); [discriminate|].
  cbn. intros H. split; [reflexivity|].
  destruct (New_result env processManager) eqn:E1; [discriminate|].
  destruct (New_result env dispatcher) eqn:E2; [discriminate|].
  destruct (New_result env messageRouter) eqn:E3; [discriminate|].
  destruct (New_result env payloadProcessor) eqn:E4; [discriminate|].
  intros []; assumption.
Qed.

Lemma startup_failed_parse e :
  ParseLevel_result env = Some e -> startup_ok env = false.
Proof.
  intros H. destruct (startup_ok env) eqn:E; [|reflexivity].
  apply startup_ok_results in E. destruct E as [E _]. congruence.
Qed.

Lemma startup_failed_new c e :
  New_result env c = Some e -> startup_ok env = false.
Proof.
  intros H. destruct (startup_ok env) eqn:E; [|reflexivity].
  apply startup_ok_results in E. destruct E as [_ E]. specialize (E c).
  congruence.
Qed.

Lemma inv_quit_step a s s' :
  inv_early s -> inv_quit env s ->
  step env pol a s = Some s' -> inv_quit env s'.
Proof.
  unfold inv_early, inv_quit. intros H0 H2 H.
  step_cases s H.
  all: unfold count in *; cbn in *.
  all: try (left; repeat split; try tauto;
            eauto using startup_failed_parse, startup_failed_new; fail).
  all: try (right; tauto).
  all: solve_step.
Qed.

Lemma inv_pm_step a s s' :
  inv_pm env s -> step env pol a s = Some s' -> inv_pm env s'.
Proof.
  unfold inv_pm, inv_chan.
  intros (H1 & H2 & H2c & H3 & H4 & H5 & H6 & H7) H.
  step_cases s H.
  all: repeat match goal with |- _ /\ _ => split end.
  all: trace_goal.
  all: solve_step.
Qed.

Lemma inv_router_step a s s' :
  inv_router env s -> step env pol a s = Some s' -> inv_router env s'.
Proof.
  unfold inv_router, inv_chan, each_call.
  intros (H1 & H2 & H2c & H3 & H4 & H5 & H6 & H7 & H8 & H9 & H10 & H11
          & H12 & H13 & H14 & H15) H.
  step_cases s H.
  all: unfold count, handshake_call, handshake_payload, router_call in *;
    cbn in *.
  all: repeat match goal with |- _ /\ _ => split end.
  all: trace_goal.
  all: solve_step.
Qed.

Lemma inv_shutdown_step a s s' :
  inv_early s -> inv_shutdown s ->
  step env pol a s = Some s' -> inv_shutdown s'.
Proof.
  unfold inv_early, inv_shutdown, shutdown_requested. intros H0 H1 H.
  step_cases s H.
  all: try (intros _; right; reflexivity).
  all: try (intros _; left; destruct quit0; discriminate).
  all: solve_step.
Qed.

Lemma inv_fail_step a s s' :
  inv_fail s -> step env pol a s = Some s' -> inv_fail s'.
Proof.
  unfold inv_fail. intros H1 H.
  step_cases s H.
  all: unfold at_assign, at_send in *; cbn in *.
  all: fail_case H1.
Qed.

Lemma inv_ran_step a s s' :
  inv_ran s -> step env pol a s = Some s' -> inv_ran s'.
Proof.
  unfold inv_ran. intros H1 H.
  step_cases s H.
  all: fail_case H1.
Qed.

Lemma inv_init : inv env (init : State).
Proof.
  unfold inv, inv_early, inv_started, inv_err, inv_quit, inv_pm, inv_router,
    inv_fail, inv_shutdown, inv_ran, inv_chan, each_call; cbn.
  repeat match goal with |- _ /\ _ => split end;
    auto using each_after_nil; try discriminate; try contradiction.
Qed.

Lemma inv_step a s s' :
  inv env s -> step env pol a s = Some s' -> inv env s'.
Proof.
  intros (H1 & H2 & H3 & H4 & H5 & H6 & H7 & H8 & H9) H.
  unfold inv; repeat match goal with |- _ /\ _ => split end;
    eauto using inv_early_step, inv_started_step, inv_err_step, inv_quit_step,
      inv_pm_step, inv_router_step, inv_fail_step, inv_shutdown_step,
      inv_ran_step.
Qed.

Lemma inv_reachable s : Reachable env pol s -> inv env s.
Proof.
  apply reachable_ind; [apply inv_init | apply inv_step].
Qed.

End Invariants.

(** * The claims *)

Section Claims.

Context {CanonicalFacts Value : Type}.
Variable env : @Env CanonicalFacts.
Variable pol : @Policy CanonicalFacts Value.

#[local] Abbreviation State := (State).
#[local] Abbreviation Event := (@Event CanonicalFacts Value).

Lemma count_occurs (p : Event -> bool) (tr : list Event) :
  occurs p tr = true <-> 0 < count p tr.
Proof.
  unfold occurs, count. induction tr as [|e tr IH]; cbn.
  - split; [discriminate | lia].
  - destruct (p e); cbn; [split; [lia | reflexivity] | exact IH].
Qed.

(** C1, as amended: the last assignment wins.  Every failing path
    overwrites [err] without looking at it, and when the daemon exits
    through the shutdown sequence the cause it reports is the error of
    [KillAllWorkers] if that call fails, otherwise the error most recently
    assigned to [err]; while the process runs [err] holds that most recent
    error. *)
Theorem last_error_wins s :
  Reachable env pol s ->
  (exited s = false -> err s = last_assigned (trace s)) /\
  (forall code cause,
     exit_status s = Some (code, cause) ->
     occurs is_recv_quit (trace s) = true ->
     cause = match KillAllWorkers_result env with
             | Some k => Some k
             | None => last_assigned (trace s)
             end).
Proof.
  intros Hr. destruct (inv_reachable env pol s Hr) as (_ & _ & He & _).
  unfold inv_err, exit_status, exited, final_status in *.
  destruct (main_pc s); split; intros; try discriminate; try tauto.
  match goal with E : Some _ = Some _ |- _ => injection E as <- <- end.
  specialize (He H0).
  destruct (KillAllWorkers_result env); [congruence|].
  destruct (last_assigned (trace s)); congruence.
Qed.

(** C2: in every interleaving [quit] is read at most once and
    [KillAllWorkers] is called at most once, however many termination
    requests the host and the goroutines produce; a daemon whose startup
    succeeded and that has exited has read [quit] exactly once and called
    [KillAllWorkers] exactly once. *)
Theorem one_shutdown_sequence s :
  Reachable env pol s ->
  count is_recv_quit (trace s) <= 1 /\
  count (is_call KillAllWorkers) (trace s) <= 1 /\
  count (is_call KillAllWorkers) (trace s) <= count is_recv_quit (trace s) /\
  (exited s = true -> startup_ok env = true ->
   count is_recv_quit (trace s) = 1 /\
   count (is_call KillAllWorkers) (trace s) = 1).
Proof.
  intros Hr. destruct (inv_reachable env pol s Hr) as (_ & _ & _ & Hq & _).
  unfold inv_quit, exited in *.
  destruct (main_pc s); repeat split; intros; try discriminate;
    try lia; try (destruct Hq as [(?&?&?)|(?&?)]; (lia || congruence)).
Qed.






(** C5, as amended: the handshake is published at most once per run, and
    exactly once by the time the message-router closure has finished; every
    call of [Publish] is on the topic "handshake" with the bytes that
    [json.Marshal] returned for the facts that [GetCanonicalFacts] returned;
    it comes after [ConnectClient] has returned, and every call of
    [Subscribe] comes after [Publish] has returned. *)
Theorem handshake_once s :
  Reachable env pol s ->
  count (is_call Publish) (trace s) <= 1 /\
  (router_pc s = RDone -> count (is_call Publish) (trace s) = 1) /\
  Forall (fun e => is_call Publish e = true -> e = handshake_call env)
    (trace s) /\
  each_after (is_return ConnectClient) (is_call Publish) (trace s) /\
  each_after (is_return Publish) (is_call Subscribe) (trace s).
Proof.
  intros Hr. destruct (inv_reachable env pol s Hr) as (_ & _ & _ & _ & _ & Hp & _).
  unfold inv_router in Hp.
  destruct Hp
    as (_ & _ & _ & _ & _ & _ & _ & Hc & _ & _ & Hf & Ha & _ & _ & _ & Hs).
  repeat split; try assumption.
  - rewrite Hc. destruct (router_called (router_pc s) KPublish); lia.
  - intros E. rewrite Hc, E. reflexivity.
Qed.

(** C6, as amended: when the daemon exits through the shutdown sequence its
    status is the one lines 194-202 compute from [err]; it is 1 whenever a
    fatal error was assigned to [err], the cause reported being the error of
    [KillAllWorkers] if that call fails and otherwise the error most recently
    assigned; it is 0, with no cause, when no error was assigned and
    [KillAllWorkers] succeeds. *)
Theorem exit_code_and_cause s code cause :
  Reachable env pol s ->
  exit_status s = Some (code, cause) ->
  occurs is_recv_quit (trace s) = true ->
  (code, cause) = final_status env (last_assigned (trace s)) /\
  (occurs is_assign (trace s) = true -> code = 1%Z /\ cause <> None) /\
  (occurs is_assign (trace s) = false ->
   KillAllWorkers_result env = None -> code = 0%Z /\ cause = None).
Proof.
  intros Hr Hx Hq. destruct (inv_reachable env pol s Hr) as (_ & _ & He & _).
  unfold inv_err, exit_status in *.
  destruct (main_pc s); try discriminate.
  injection Hx as -> ->. specialize (He Hq).
  assert (Hl : occurs is_assign (trace s) = true <->
               last_assigned (trace s) <> None).
  { unfold occurs. clear. induction (trace s) as [|e tr IH]; cbn.
    - split; [discriminate | congruence].
    - destruct e; cbn; try exact IH. split; [discriminate | reflexivity]. }
  split; [exact He|].
  unfold final_status in He.
  destruct (occurs is_assign (trace s)) eqn:Ho.
  - assert (Hn : last_assigned (trace s) <> None) by (apply Hl; reflexivity).
    split; [intros _ | discriminate].
    destruct (KillAllWorkers_result env) as [k|];
      [| destruct (last_assigned (trace s)) as [x|]; [| congruence]];
      injection He as -> ->; split; congruence.
  - assert (Hn : last_assigned (trace s) = None).
    { destruct (last_assigned (trace s)) eqn:E; [|reflexivity].
      assert (false = true) by (apply Hl; discriminate). discriminate. }
    split; [discriminate | intros _ Hk].
    rewrite Hk, Hn in He. injection He as -> ->. split; reflexivity.
Qed.

(** C9, as amended: the worker directory is created by the caller: in
    every execution each call of [BootstrapWorkers] has the worker directory
    as its argument and comes after the process-manager closure has called
    [os.MkdirAll] on that same directory with mode 0755. *)
Theorem mkdir_before_bootstrap s :
  Reachable env pol s ->
  each_after (is_mkdir_worker_dir env) (is_call BootstrapWorkers) (trace s) /\
  Forall (fun e => is_call BootstrapWorkers e = true -> e = bootstrap_call env)
    (trace s).
Proof.
  intros Hr. destruct (inv_reachable env pol s Hr) as (_ & _ & _ & _ & Hp & _).
  unfold inv_pm in Hp. tauto.
Qed.

Lemma reachable_exec sched s s' :
  Reachable env pol s -> exec env pol sched s = Some s' ->
  Reachable env pol s'.
Proof.
  intros [l Hl] He. exists (l ++ sched). rewrite exec_app, Hl. exact He.
Qed.

Lemma not_occurs_count (p : Event -> bool) (tr : list Event) :
  count p tr = 0 -> occurs p tr = false.
Proof.
  intros H. destruct (occurs p tr) eqn:E; [|reflexivity].
  apply count_occurs in E. lia.
Qed.

Lemma in_occurs (p : Event -> bool) (e : Event) (tr : list Event) :
  In e tr -> p e = true -> occurs p tr = true.
Proof.
  intros Hi Hp. apply existsb_exists. exists e. tauto.
Qed.

Lemma keeps_goroutines_refl (s : State) :
  @keeps_goroutines CanonicalFacts Value s s.
Proof.
  unfold keeps_goroutines. repeat split. apply incl_refl.
Qed.

Lemma keeps_goroutines_trans (s1 s2 s3 : State) :
  @keeps_goroutines CanonicalFacts Value s1 s2 ->
  keeps_goroutines s2 s3 -> keeps_goroutines s1 s3.
Proof.
  unfold keeps_goroutines. intros (A1 & A2 & A3 & A4) (B1 & B2 & B3 & B4).
  repeat split; try congruence.
  eapply incl_tran; eassumption.
Qed.

Lemma at_send_keeps (s s' : State) f :
  @keeps_goroutines CanonicalFacts Value s s' -> at_send f s -> at_send f s'.
Proof.
  unfold keeps_goroutines, at_send. intros (A1 & A2 & A3 & _).
  rewrite A1, A2, A3. tauto.
Qed.

Ltac trace_grows := unfold incl; cbn; intros; tauto.

(** With a termination request there, the main goroutine takes its next
    step without waiting, wherever it is between the first [Connect] and the
    call of [KillAllWorkers]; no other goroutine moves. *)
Lemma main_kill_step s n :
  Reachable env pol s ->
  exited s = false ->
  main_early (main_pc s) = false ->
  shutdown_requested s ->
  steps_to_kill (main_pc s) = S n ->
  exists s',
    step env pol (Run Main) s = Some s' /\
    steps_to_kill (main_pc s') = n /\
    exited s' = false /\
    main_early (main_pc s') = false /\
    shutdown_requested s' /\
    keeps_goroutines s s'.
Proof.
  intros Hr Hx He Hs Hn.
  destruct (inv_reachable env pol s Hr) as (_ & _ & _ & Hq & _).
  unfold inv_quit, shutdown_requested, keeps_goroutines in *.
  destruct s as [mpc ? ? ? ? ? ? q ? ? ? ? tr]; cbn in *.
  unfold step, exited; cbn.
  destruct mpc as [| |c|sig|g| | | | |]; try discriminate;
    [destruct sig | destruct g | |]; cbn in *;
    injection Hn as <-;
    try (eexists; repeat split; try reflexivity;
         first [exact Hs | trace_grows]).
  - destruct Hq as [Hq _]. apply not_occurs_count in Hq. unfold occurs in Hq.
    destruct Hs as [Hs|Hs]; [|congruence].
    destruct q; [congruence|].
    eexists; repeat split; try reflexivity;
      first [right; reflexivity | trace_grows].
Qed.

Lemma main_reaches_kill n : forall s,
  Reachable env pol s ->
  exited s = false ->
  main_early (main_pc s) = false ->
  shutdown_requested s ->
  steps_to_kill (main_pc s) = n ->
  exists s',
    exec env pol (repeat (Run Main) n) s = Some s' /\
    keeps_goroutines s s' /\
    occurs (is_call KillAllWorkers) (trace s') = true.
Proof.
  induction n as [|n IH]; intros s Hr Hx He Hs Hn.
  - exists s. split; [reflexivity|]. split; [apply keeps_goroutines_refl|].
    destruct (inv_reachable env pol s Hr) as (_ & _ & _ & Hq & _).
    unfold inv_quit in Hq. apply count_occurs.
    destruct s as [mpc ? ? ? ? ? ? q ? ? ? ? tr]; cbn in *.
    destruct mpc as [| |c|sig|g| | | | |]; try discriminate;
      [destruct sig | destruct g | |]; try discriminate; lia.
  - destruct (main_kill_step s n Hr Hx He Hs Hn)
      as (s1 & H1 & Hn1 & Hx1 & He1 & Hs1 & Hk1).
    destruct (IH s1 (reachable_step env pol _ _ _ Hr H1) Hx1 He1 Hs1 Hn1)
      as (s' & H2 & Hk2 & Hk).
    exists s'. split; [|split; [|exact Hk]].
    + cbn [repeat exec]. rewrite H1. exact H2.
    + eapply keeps_goroutines_trans; eassumption.
Qed.

Ltac run_go Hx Hst :=
  unfold step; unfold exited in *; cbn in Hx |- *; rewrite Hx; cbn;
  unfold step_go, step_pm, step_disp, step_router, send_quit, option_map;
  cbn; rewrite ?Hst; cbn.

Ltac sent :=
  eexists; repeat split;
  first [discriminate | left; reflexivity | trace_grows].

(** A goroutine that is at its send with [quit] empty completes the send. *)
Lemma send_completes s f :
  Reachable env pol s ->
  exited s = false ->
  handled f = true ->
  at_send f s ->
  quit s = [] ->
  exists s',
    step env pol (Run (caller f)) s = Some s' /\
    main_pc s' = main_pc s /\
    quit s' <> [] /\
    In (EvSendQuit f) (trace s') /\
    incl (trace s) (trace s').
Proof.
  intros Hr Hx Hh Ha Hq.
  destruct (inv_reachable env pol s Hr) as (_ & (Hp & Hd & Hro & _) & _).
  unfold at_send in *.
  destruct s as [mpc ppc dpc rpc st er nt q sb cl fa da tr]; cbn in *.
  subst q.
  destruct f; try discriminate Hh; cbn in Ha; subst.
  - destruct (st process_manager_routine) eqn:E;
      [| specialize (Hp eq_refl); discriminate].
    run_go Hx E. sent.
  - destruct (st dispatcher_routine) eqn:E;
      [| specialize (Hd eq_refl); discriminate].
    run_go Hx E. sent.
  - destruct (st message_router_routine) eqn:E;
      [| specialize (Hro eq_refl); discriminate].
    run_go Hx E. sent.
  - destruct (st message_router_routine) eqn:E;
      [| specialize (Hro eq_refl); discriminate].
    run_go Hx E. sent.
  - destruct (st message_router_routine) eqn:E;
      [| specialize (Hro eq_refl); discriminate].
    run_go Hx E. sent.
  - destruct (st message_router_routine) eqn:E;
      [| specialize (Hro eq_refl); discriminate].
    run_go Hx E. sent.
  - destruct (st message_router_routine) eqn:E;
      [| specialize (Hro eq_refl); discriminate].
    run_go Hx E. sent.
Qed.

Ltac assigned := eexists; repeat split; trace_grows.

(** A goroutine whose call failed takes one step towards its send: from
    the trace statement to the assignment, from the assignment, which it
    makes, to the send. *)
Lemma assign_step s f e :
  Reachable env pol s ->
  exited s = false ->
  handled f = true ->
  at_assign f e s ->
  exists s',
    step env pol (Run (caller f)) s = Some s' /\
    main_pc s' = main_pc s /\
    quit s' = quit s /\
    incl (trace s) (trace s') /\
    ((f = ListenAndServe /\ disp_pc s = DTrace e /\ disp_pc s' = DAssignErr e)
     \/ (at_send f s' /\ In (EvAssignErr f e) (trace s'))).
Proof.
  intros Hr Hx Hh Ha.
  destruct (inv_reachable env pol s Hr) as (_ & (Hp & Hd & Hro & _) & _).
  unfold at_assign, at_send in *.
  destruct s as [mpc ppc dpc rpc st er nt q sb cl fa da tr]; cbn in *.
  destruct f; try discriminate Hh; cbn in Ha |- *;
    try destruct Ha as [Ha|Ha]; subst.
  - destruct (st process_manager_routine) eqn:E;
      [| specialize (Hp eq_refl); discriminate].
    run_go Hx E. assigned.
  - destruct (st dispatcher_routine) eqn:E;
      [| specialize (Hd eq_refl); discriminate].
    run_go Hx E. assigned.
  - destruct (st dispatcher_routine) eqn:E;
      [| specialize (Hd eq_refl); discriminate].
    run_go Hx E. assigned.
  - destruct (st message_router_routine) eqn:E;
      [| specialize (Hro eq_refl); discriminate].
    run_go Hx E. assigned.
  - destruct (st message_router_routine) eqn:E;
      [| specialize (Hro eq_refl); discriminate].
    run_go Hx E. assigned.
  - destruct (st message_router_routine) eqn:E;
      [| specialize (Hro eq_refl); discriminate].
    run_go Hx E. assigned.
  - destruct (st message_router_routine) eqn:E;
      [| specialize (Hro eq_refl); discriminate].
    run_go Hx E. assigned.
  - destruct (st message_router_routine) eqn:E;
      [| specialize (Hro eq_refl); discriminate].
    run_go Hx E. assigned.
Qed.

(** A goroutine that is at its send, the assignment made, completes the
    send in one step of its own when [quit] is empty, and waits when a
    request is there already. *)
Lemma send_or_wait s f e :
  Reachable env pol s ->
  exited s = false ->
  handled f = true ->
  at_send f s ->
  In (EvAssignErr f e) (trace s) ->
  exists n s',
    exec env pol (repeat (Run (caller f)) n) s = Some s' /\
    main_pc s' = main_pc s /\
    In (EvAssignErr f e) (trace s') /\
    (In (EvSendQuit f) (trace s') \/ (at_send f s' /\ quit s <> [])) /\
    shutdown_requested s'.
Proof.
  intros Hr Hx Hh Ha Hin. destruct (quit s) eqn:Hq.
  - destruct (send_completes s f Hr Hx Hh Ha Hq)
      as (s1 & H1 & Hm & Hn & Hs & Hi).
    exists 1, s1. cbn. rewrite H1.
    repeat split; [exact Hm | apply Hi, Hin | left; exact Hs | left; exact Hn].
  - exists 0, s. cbn.
    repeat split; [exact Hin | right; split; [exact Ha | discriminate] |].
    left. rewrite Hq. discriminate.
Qed.

(** The goroutine whose call failed, running alone, makes the assignment
    and brings a termination request into [quit], unless one is there
    already; then it waits at its send. *)
Lemma failure_reaches_request s f e :
  Reachable env pol s ->
  exited s = false ->
  handled f = true ->
  In (EvReturn f (Some e)) (trace s) ->
  exists n s',
    exec env pol (repeat (Run (caller f)) n) s = Some s' /\
    main_pc s' = main_pc s /\
    In (EvAssignErr f e) (trace s') /\
    (In (EvSendQuit f) (trace s') \/ (at_send f s' /\ quit s <> [])) /\
    shutdown_requested s'.
Proof.
  intros Hr Hx Hh Hin.
  assert (Hkeep : forall s0 s1 : State,
            main_pc s1 = main_pc s0 ->
            @exited CanonicalFacts Value s0 = false ->
            @exited CanonicalFacts Value s1 = false).
  { intros s0 s1 Hm. unfold exited. rewrite Hm. tauto. }
  assert (Hnext : forall s0 s1, Reachable env pol s0 -> exited s0 = false ->
            step env pol (Run (caller f)) s0 = Some s1 ->
            main_pc s1 = main_pc s0 -> quit s1 = quit s0 ->
            at_send f s1 -> In (EvAssignErr f e) (trace s1) ->
            exists n s',
              exec env pol (repeat (Run (caller f)) n) s0 = Some s' /\
              main_pc s' = main_pc s0 /\
              In (EvAssignErr f e) (trace s') /\
              (In (EvSendQuit f) (trace s') \/
               (at_send f s' /\ quit s0 <> [])) /\
              shutdown_requested s').
  { intros s0 s1 Hr0 Hx0 H1 Hm1 Hq1 Ha1 Hi1.
    destruct (send_or_wait s1 f e (reachable_step env pol _ _ _ Hr0 H1)
                (Hkeep _ _ Hm1 Hx0) Hh Ha1 Hi1)
      as (n & s2 & H2 & Hm2 & Hi2 & Hs2 & Hq2).
    exists (S n), s2. cbn [repeat exec]. rewrite H1.
    repeat split; [exact H2 | congruence | exact Hi2 | | exact Hq2].
    rewrite <- Hq1. exact Hs2. }
  destruct (inv_reachable env pol s Hr)
    as (_ & _ & _ & _ & _ & _ & Hfail & Hsd & _).
  destruct (Hfail f e Hh Hin) as [Ha|(Hi & [Ha|Ha])].
  - destruct (assign_step s f e Hr Hx Hh Ha) as (s1 & H1 & Hm1 & Hq1 & _ & Hc).
    destruct Hc as [(-> & _ & Hd)|(Ha1 & Hi1)]; [|eauto].
    pose proof (reachable_step env pol _ _ _ Hr H1) as Hr1.
    pose proof (Hkeep _ _ Hm1 Hx) as Hx1.
    assert (Ha1 : at_assign ListenAndServe e s1) by (right; exact Hd).
    destruct (assign_step s1 ListenAndServe e Hr1 Hx1 Hh Ha1)
      as (s2 & H2 & Hm2 & Hq2 & _ & Hc2).
    destruct Hc2 as [(_ & Hd2 & _)|(Ha2 & Hi2)]; [congruence|].
    destruct (Hnext s1 s2 Hr1 Hx1 H2 Hm2 Hq2 Ha2 Hi2)
      as (n & s3 & H3 & Hm3 & Hi3 & Hs3 & Hq3).
    exists (S n), s3. cbn [repeat exec]. rewrite H1.
    repeat split; [exact H3 | congruence | exact Hi3 | | exact Hq3].
    rewrite <- Hq1. exact Hs3.
  - exact (send_or_wait s f e Hr Hx Hh Ha Hi).
  - exists 0, s. cbn. repeat split; [exact Hi | left; exact Ha |].
    apply Hsd. eapply in_occurs; [exact Ha | reflexivity].
Qed.

(** After a failed call the shutdown sequence runs with no help from
    outside: the goroutine that made the call and then the main goroutine,
    each running alone, reach the call of [KillAllWorkers]. *)
Lemma failure_reaches_kill s f e :
  Reachable env pol s ->
  handled f = true ->
  In (EvReturn f (Some e)) (trace s) ->
  (exited s = true -> occurs (is_call KillAllWorkers) (trace s) = true) /\
  (exited s = false ->
   exists n m s',
     exec env pol (repeat (Run (caller f)) n ++ repeat (Run Main) m) s
       = Some s' /\
     In (EvAssignErr f e) (trace s') /\
     (In (EvSendQuit f) (trace s') \/ (at_send f s' /\ quit s <> [])) /\
     occurs (is_call KillAllWorkers) (trace s') = true).
Proof.
  intros Hr Hh Hin.
  destruct (inv_reachable env pol s Hr)
    as (Hearly & (_ & _ & _ & Hst) & _ & Hq & _ & _ & _ & _ & Hran).
  specialize (Hran f (Some e) Hh Hin).
  assert (Hg : exists g, started s g = true).
  { destruct f; try discriminate Hh; cbn in Hran; eauto. }
  destruct Hg as [g Hg].
  split; intros Hx.
  - unfold inv_quit, exited in *. destruct (main_pc s); try discriminate.
    apply count_occurs. destruct Hq as [(Hq & _)|(_ & Hq)]; [|lia].
    apply not_occurs_count in Hq. specialize (Hst Hq g). congruence.
  - assert (He : main_early (main_pc s) = false).
    { destruct (main_early (main_pc s)) eqn:E; [|reflexivity].
      destruct (Hearly E) as (Hn & _). specialize (Hn g). congruence. }
    destruct (failure_reaches_request s f e Hr Hx Hh Hin)
      as (n & s1 & H1 & Hm & Hi & Hs & Hq1).
    destruct (main_reaches_kill (steps_to_kill (main_pc s1)) s1
                (reachable_exec _ s s1 Hr H1))
      as (s' & H' & Hk & Hkill); try reflexivity; try assumption.
    + unfold exited in *. rewrite Hm. exact Hx.
    + rewrite Hm. exact He.
    + exists n, (steps_to_kill (main_pc s1)), s'.
      rewrite exec_app, H1. split; [exact H'|].
      split; [apply Hk, Hi|]. split; [|exact Hkill].
      destruct Hs as [Hs|(Hs & Hn)]; [left; apply Hk, Hs | right].
      split; [exact (at_send_keeps s1 s' f Hk Hs) | exact Hn].
Qed.

(** C7: when [BootstrapWorkers], [ListenAndServe], [ConnectClient] or
    [Subscribe] has returned an error [e], the goroutine that made the call
    is at the assignment [err = e], or has made it and is at or past its
    send on [quit]; a send that has completed leaves a termination request
    in [quit] or already taken by the main goroutine; a send that waits with
    [quit] empty goes through; and the shutdown follows with no step of
    anything else: if the process has not exited, steps of the goroutine
    that made the call followed by steps of the main goroutine, and no
    others, lead to a state where [err = e] has been assigned, the send on
    [quit] has completed (or still waits because a termination request was
    in [quit] before), and the main goroutine has called [KillAllWorkers];
    if the process has exited, it has called [KillAllWorkers]. *)
Theorem component_error_triggers_shutdown s f e :
  Reachable env pol s ->
  component_level f = true ->
  In (EvReturn f (Some e)) (trace s) ->
  (at_assign f e s \/
   (In (EvAssignErr f e) (trace s) /\
    (at_send f s \/ In (EvSendQuit f) (trace s)))) /\
  (In (EvSendQuit f) (trace s) -> shutdown_requested s) /\
  (at_send f s -> exited s = false -> quit s = [] ->
   exists s',
     step env pol (Run (caller f)) s = Some s' /\
     In (EvSendQuit f) (trace s')) /\
  (exited s = true -> occurs (is_call KillAllWorkers) (trace s) = true) /\
  (exited s = false ->
   exists n m s',
     exec env pol (repeat (Run (caller f)) n ++ repeat (Run Main) m) s
       = Some s' /\
     In (EvAssignErr f e) (trace s') /\
     (In (EvSendQuit f) (trace s') \/ (at_send f s' /\ quit s <> [])) /\
     occurs (is_call KillAllWorkers) (trace s') = true).
Proof.
  intros Hr Hc Hin.
  assert (Hh : handled f = true) by (destruct f; try discriminate; reflexivity).
  destruct (inv_reachable env pol s Hr)
    as (_ & _ & _ & _ & _ & _ & Hfail & Hsd & _).
  split; [exact (Hfail f e Hh Hin)|].
  split; [intros Hs; apply Hsd; eapply in_occurs; [exact Hs | reflexivity]|].
  split; [|exact (failure_reaches_kill s f e Hr Hh Hin)].
  intros Ha Hx Hq.
  destruct (send_completes s f Hr Hx Hh Ha Hq) as (s' & H1 & _ & _ & H2 & _).
  eauto.
Qed.

(** While the message-router closure waits at a send with [quit] full and
    its one value already taken by the main goroutine, nothing frees the
    buffer again: the closure stays where it is and makes no further call. *)
Lemma stuck_step k a s s' :
  router_stuck k s ->
  step env pol a s = Some s' ->
  router_stuck k s' /\
  occurs (is_call Subscribe) (trace s') = occurs (is_call Subscribe) (trace s).
Proof.
  unfold router_stuck. intros (H1 & H2 & H3) H.
  step_cases s H.
  all: try contradiction; try discriminate.
  all: try match goal with
         | N : ?q <> [], E : Nat.leb (List.length ?q) 0 = true |- _ =>
             destruct q; [congruence | discriminate E]
         end.
  all: repeat split; auto; try congruence.
Qed.

Lemma stuck_forever k sched : forall s s',
  router_stuck k s ->
  exec env pol sched s = Some s' ->
  occurs (is_call Subscribe) (trace s') = occurs (is_call Subscribe) (trace s).
Proof.
  induction sched as [|a sched IH]; intros s s' Hk He; cbn in He.
  - injection He as <-. reflexivity.
  - destruct (step env pol a s) as [s1|] eqn:E; [|discriminate].
    destruct (stuck_step k a s s1 Hk E) as (Hk1 & Ho).
    rewrite <- Ho. eapply IH; eassumption.
Qed.

(** C10, as amended: after [ConnectClient] has returned an error the
    message-router closure has no early return: it reaches its end only
    after calling [GetCanonicalFacts], [json.Marshal], [Publish] and
    [Subscribe], each after the previous call has returned; each call that
    returned an error is followed by the assignment of that error to [err]
    and then by a send on [quit]; and the closure can take its next step
    whenever the process is alive, except at a send while [quit] is full,
    where it waits. *)
Theorem router_has_no_early_return s e :
  Reachable env pol s ->
  In (EvReturn ConnectClient (Some e)) (trace s) ->
  (router_pc s = RDone ->
   each_call (fun k => occurs (is_call (fn_of k)) (trace s) = true)) /\
  (each_after (is_return ConnectClient) (is_call GetCanonicalFacts) (trace s) /\
   each_after (is_return GetCanonicalFacts) (is_call Marshal) (trace s) /\
   each_after (is_return Marshal) (is_call Publish) (trace s) /\
   each_after (is_return Publish) (is_call Subscribe) (trace s)) /\
  (forall k e',
     In (EvReturn (fn_of k) (Some e')) (trace s) ->
     router_pc s = RAssignErr k e' \/
     (In (EvAssignErr (fn_of k) e') (trace s) /\
      (router_pc s = RSendQuit k \/ In (EvSendQuit (fn_of k)) (trace s)))) /\
  (exited s = false ->
   router_pc s = RDone \/
   (exists k, router_pc s = RSendQuit k /\ quit s <> []) \/
   exists s', step env pol (Run (Go message_router_routine)) s = Some s').
Proof.
  intros Hr Hin.
  destruct (inv_reachable env pol s Hr)
    as (_ & _ & _ & _ & _ & Hro & Hfail & _ & Hran).
  unfold inv_router in Hro.
  destruct Hro as (_ & _ & _ & _ & _ & Hc & Hret & _ & _ & _ & _ & _ & A1 & A2
                   & A3 & A4).
  split; [|split; [|split]].
  - intros Hd. unfold each_call in *. rewrite Hd in Hc. cbn in Hc. tauto.
  - tauto.
  - intros k e' Hk.
    assert (Hh : handled (fn_of k) = true) by (destruct k; reflexivity).
    specialize (Hfail (fn_of k) e' Hh Hk).
    unfold at_assign, at_send in Hfail. destruct k; cbn in Hfail; exact Hfail.
  - intros Hx.
    specialize (Hran ConnectClient (Some e) eq_refl Hin). cbn in Hran.
    assert (Ho : occurs (is_return ConnectClient) (trace s) = true)
      by (eapply in_occurs; [exact Hin | reflexivity]).
    destruct Hret as (Hret & _). cbn in Hret. rewrite Ho in Hret.
    destruct s as [mpc ppc dpc rpc st er nt q sb cl fa da tr]; cbn in *.
    destruct rpc as [| |k|k|k e0|k|]; try discriminate Hret.
    + right; right. run_go Hx Hran. eexists; reflexivity.
    + right; right. run_go Hx Hran. eexists; reflexivity.
    + right; right. run_go Hx Hran. eexists; reflexivity.
    + destruct q as [|sg q].
      * right; right. run_go Hx Hran. eexists; reflexivity.
      * right; left. exists k. split; [reflexivity | discriminate].
    + left; reflexivity.
Qed.

End Claims.

(** * The claims on concrete runs *)

Ltac by_run sched := exists sched; vm_compute; reflexivity.

Ltac find_in := vm_compute; repeat (first [left; reflexivity | right]).

Lemma last_error_wins_witness :
  Some "bootstrap" =
  last_assigned
    (trace (final env_listen_then_bootstrap (@any_time string nat)
              sched_listen_then_bootstrap)).
Proof.
  refine (proj2 (last_error_wins env_listen_then_bootstrap any_time
                   (final env_listen_then_bootstrap any_time
                      sched_listen_then_bootstrap) _)
            1%Z (Some "bootstrap") _ _).
  - by_run sched_listen_then_bootstrap.
  - vm_compute; reflexivity.
  - vm_compute; reflexivity.
Defined.

(** The first error assigned was "listen", the cause reported is
    "bootstrap". *)
Lemma first_error_is_overwritten :
  ~ first_error_wins env_listen_then_bootstrap (@any_time string nat).
Proof.
  intros H.
  specialize (H (final env_listen_then_bootstrap any_time
                   sched_listen_then_bootstrap)
                1%Z (Some "bootstrap") "listen").
  assert (E : Some "bootstrap" = Some "listen").
  { apply H; [by_run sched_listen_then_bootstrap | | |];
      vm_compute; reflexivity. }
  discriminate E.
Qed.

Lemma one_shutdown_sequence_witness :
  count is_recv_quit
    (trace (final env_listen_fails (@any_time string nat) sched_race)) = 1 /\
  count (is_call KillAllWorkers)
    (trace (final env_listen_fails (@any_time string nat) sched_race)) = 1.
Proof.
  refine (proj2 (proj2 (proj2
            (one_shutdown_sequence env_listen_fails any_time
               (final env_listen_fails any_time sched_race) _))) _ _).
  - by_run sched_race.
  - vm_compute; reflexivity.
  - vm_compute; reflexivity.
Defined.


(** The closed-channel case of [<-c] at line 136 is live: when the bus
    closes the handle, the process-manager closure bootstraps the workers
    although nothing was published under [SignalDispatcherListen]. *)
Example bootstrap_on_closed_handle :
  Reachable env_ok (@any_time string nat)
    (final env_ok any_time sched_closed_listen) /\
  occurs (is_recv_closed process_manager_routine SignalDispatcherListen)
    (trace (final env_ok (@any_time string nat) sched_closed_listen)) = true /\
  occurs (is_call BootstrapWorkers)
    (trace (final env_ok (@any_time string nat) sched_closed_listen)) = true /\
  occurs (is_delivered SignalDispatcherListen)
    (trace (final env_ok (@any_time string nat) sched_closed_listen)) = false.
Proof.
  split; [by_run sched_closed_listen|].
  repeat split; vm_compute; reflexivity.
Qed.


Lemma handshake_once_witness :
  count (is_call Publish)
    (trace (final env_ok (@any_time string nat) sched_clean)) = 1.
Proof.
  refine (proj1 (proj2 (handshake_once env_ok any_time
                          (final env_ok any_time sched_clean) _)) _).
  - by_run sched_clean.
  - vm_compute; reflexivity.
Defined.

(** [ConnectClient] has failed and [Publish] is called all the same. *)
Lemma handshake_after_failed_connect :
  ~ handshake_needs_connection env_connect_fails (@any_time string nat).
Proof.
  intros H.
  specialize (H (final env_connect_fails any_time sched_connect_fails)).
  assert (E : ConnectClient_result env_connect_fails = None).
  { apply H; [by_run sched_connect_fails | vm_compute; reflexivity]. }
  discriminate E.
Qed.

Lemma exit_code_and_cause_witness :
  (0%Z, @None error) =
  final_status env_ok
    (last_assigned (trace (final env_ok (@any_time string nat) sched_clean))).
Proof.
  refine (proj1 (exit_code_and_cause env_ok any_time
                   (final env_ok any_time sched_clean) 0%Z None _ _ _)).
  - by_run sched_clean.
  - vm_compute; reflexivity.
  - vm_compute; reflexivity.
Defined.

(** The first call to fail is [ConnectClient] with "connect"; the daemon
    exits reporting "publish". *)
Lemma exit_reports_a_later_failure :
  ~ exit_reports_first_failure env_connect_then_publish
      (@any_time string nat).
Proof.
  intros H.
  specialize (H (final env_connect_then_publish any_time
                   sched_connect_then_publish)
                1%Z (Some "publish") ConnectClient "connect").
  assert (E : 1%Z <> 0%Z /\ Some "publish" = Some "connect").
  { apply H; [by_run sched_connect_then_publish | |];
      vm_compute; reflexivity. }
  destruct E as [_ E]. discriminate E.
Qed.

Lemma component_error_triggers_shutdown_witness :
  (at_assign ListenAndServe "listen" state_listen_failed \/
   (In (EvAssignErr ListenAndServe "listen") (trace state_listen_failed) /\
    (at_send ListenAndServe state_listen_failed \/
     In (EvSendQuit ListenAndServe) (trace state_listen_failed)))) /\
  (In (EvSendQuit ListenAndServe) (trace state_listen_failed) ->
   shutdown_requested state_listen_failed) /\
  (at_send ListenAndServe state_listen_failed ->
   exited state_listen_failed = false ->
   quit state_listen_failed = [] ->
   exists s',
     step env_listen_fails any_time (Run (caller ListenAndServe))
       state_listen_failed = Some s' /\
     In (EvSendQuit ListenAndServe) (trace s')) /\
  (exited state_listen_failed = true ->
   occurs (is_call KillAllWorkers) (trace state_listen_failed) = true) /\
  (exited state_listen_failed = false ->
   exists n m s',
     exec env_listen_fails any_time
       (repeat (Run (caller ListenAndServe)) n ++ repeat (Run Main) m)
       state_listen_failed = Some s' /\
     In (EvAssignErr ListenAndServe "listen") (trace s') /\
     (In (EvSendQuit ListenAndServe) (trace s') \/
      (at_send ListenAndServe s' /\ quit state_listen_failed <> [])) /\
     occurs (is_call KillAllWorkers) (trace s') = true).
Proof.
  apply (component_error_triggers_shutdown env_listen_fails any_time
           state_listen_failed ListenAndServe "listen").
  - by_run (wiring ++ [run_disp; run_disp; run_disp]).
  - reflexivity.
  - find_in.
Defined.

Lemma mkdir_before_bootstrap_witness :
  each_after (is_mkdir_worker_dir env_ok) (is_call BootstrapWorkers)
    (trace (final env_ok (@any_time string nat) sched_clean)) /\
  Forall (fun e => is_call BootstrapWorkers e = true ->
                   e = bootstrap_call env_ok)
    (trace (final env_ok (@any_time string nat) sched_clean)).
Proof.
  apply (mkdir_before_bootstrap env_ok any_time).
  by_run sched_clean.
Defined.

(** The process-manager closure calls [os.MkdirAll] itself. *)
Lemma caller_creates_the_directory :
  ~ caller_creates_no_directory env_ok (@any_time string nat).
Proof.
  intros H.
  specialize (H (final env_ok any_time (wiring ++ listen_and_bootstrap))).
  assert (E : occurs (is_call MkdirAll)
                (trace (final env_ok (@any_time string nat)
                          (wiring ++ listen_and_bootstrap))) = false).
  { apply H. by_run (wiring ++ listen_and_bootstrap). }
  vm_compute in E. discriminate E.
Qed.

Lemma router_has_no_early_return_witness :
  each_after (is_return ConnectClient) (is_call GetCanonicalFacts)
    (trace (final env_connect_fails (@any_time string nat)
              sched_connect_fails)) /\
  each_after (is_return GetCanonicalFacts) (is_call Marshal)
    (trace (final env_connect_fails (@any_time string nat)
              sched_connect_fails)) /\
  each_after (is_return Marshal) (is_call Publish)
    (trace (final env_connect_fails (@any_time string nat)
              sched_connect_fails)) /\
  each_after (is_return Publish) (is_call Subscribe)
    (trace (final env_connect_fails (@any_time string nat)
              sched_connect_fails)).
Proof.
  refine (proj1 (proj2
            (router_has_no_early_return env_connect_fails any_time
               (final env_connect_fails any_time sched_connect_fails)
               "connect" _ _))).
  - by_run sched_connect_fails.
  - find_in.
Defined.

(** The host's [SIGTERM] has been taken by the main goroutine, the send
    after the failed [ConnectClient] has filled the buffer, and the send
    after the failed [Publish] waits for ever: [Subscribe] is never
    called. *)
Lemma router_waits_before_subscribe :
  ~ router_still_subscribes env_connect_then_publish (@any_time string nat).
Proof.
  intros H.
  destruct (H (final env_connect_then_publish any_time
                 sched_signal_then_failures) "connect")
    as (sched & s' & He & Ho).
  - by_run sched_signal_then_failures.
  - find_in.
  - assert (Hk : router_stuck KPublish
                   (final env_connect_then_publish (@any_time string nat)
                      sched_signal_then_failures)).
    { vm_compute. repeat split. discriminate. }
    rewrite (stuck_forever env_connect_then_publish any_time KPublish sched
               _ s' Hk He) in Ho.
    vm_compute in Ho. discriminate Ho.
Qed.

(** C8: with the package publishing only from the calls that the spec names,
    there is a run in which [BootstrapWorkers] publishes
    [SignalProcessBootstrap] before line 159 has connected a subscriber: the
    value is dropped, the publish is not preceded by a [Connect], and the
    message-router closure, started afterwards, waits on an empty channel. *)
Theorem process_bootstrap_published_before_connect :
  exists s,
    exec env_ok (@publish_when_running string nat) sched_early_bootstrap init
    = Some s /\
    occurs (is_dropped SignalProcessBootstrap) (trace s) = true /\
    ~ each_after (is_connect SignalProcessBootstrap)
        (is_emit SignalProcessBootstrap) (trace s) /\
    router_pc s = RRecv /\
    subs s SignalProcessBootstrap = Some [] /\
    step env_ok publish_when_running run_router s = None.
Proof.
  eexists. split; [vm_compute; reflexivity|].
  split; [vm_compute; reflexivity|].
  split; [|repeat split; vm_compute; reflexivity].
  intros H.
  match type of H with
  | each_after _ _ ?tr =>
      specialize (H (firstn 3 tr) (EvEmit SignalProcessBootstrap 2 false)
                    (skipn 4 tr))
  end.
  assert (E : true = false); [|discriminate E].
  symmetry. rewrite <- H; vm_compute; reflexivity.
Qed.

(** * Further properties of the closure *)

Section More.

Context {CanonicalFacts Value : Type}.
Variable env : @Env CanonicalFacts.
Variable pol : @Policy CanonicalFacts Value.

#[local] Abbreviation State := (@State CanonicalFacts Value).
#[local] Abbreviation Event := (@Event CanonicalFacts Value).

Ltac use_true :=
  repeat match goal with
    | H : True -> _ |- _ => specialize (H I)
    end.

Ltac arith_step :=
  intros; use_true; use_hyps;
  repeat (match goal with
          | |- _ /\ _ => split
          | |- forall _, _ => intro
          end; use_true; use_hyps);
  try contradiction; try discriminate;
  try lia; try congruence; auto.

Lemma inv_requests_step a s s' :
  inv_requests s -> step env pol a s = Some s' -> inv_requests s'.
Proof.
  unfold inv_requests. intros (H1 & H2 & H3) H.
  step_cases s H.
  all: unfold count in *; cbn in *.
  all: rewrite ?length_app in *; cbn in *.
  all: repeat match goal with
         | E : Nat.leb _ 0 = true |- _ => apply Nat.leb_le in E
         | E : Nat.leb _ 0 = false |- _ => apply Nat.leb_gt in E
         end.
  all: try (arith_step; fail).
Qed.

Lemma inv_once_step a s s' :
  inv_once s -> step env pol a s = Some s' -> inv_once s'.
Proof.
  unfold inv_once, each_call. intros H0 H.
  step_cases s H.
  all: unfold count, router_call in *; cbn in *.
  all: try (arith_step; fail).
Qed.

Lemma inv_startup_step a s s' :
  inv_early s -> inv_started s -> inv_startup env s ->
  step env pol a s = Some s' -> inv_startup env s'.
Proof.
  unfold inv_early, inv_started, inv_startup, first_startup_failure.
  intros H0 (_ & _ & _ & Hs) (H1 & H2) H.
  step_cases s H.
  all: try (arith_step; rewrite_matches; arith_step; fail).
Qed.

Lemma in_failure (f : Fn) (e : error) (tr : list Event) :
  In (EvReturn f (Some e)) tr -> occurs (is_failure f) tr = true.
Proof.
  intros H. apply existsb_exists. exists (EvReturn f (Some e)).
  split; [exact H|]. cbn. destruct f; try reflexivity. destruct c; reflexivity.
Qed.

Lemma inv_cause_step_assign a s s' :
  inv_cause s -> step env pol a s = Some s' ->
  forall f e, at_assign f e s' -> In (EvReturn f (Some e)) (trace s').
Proof.
  unfold inv_cause. intros (H1 & _) H.
  step_cases s H.
  all: unfold at_assign, at_send in *; cbn in *.
  all: let f := fresh "f" in let e := fresh "e" in
       let Ha := fresh "Ha" in let H1f := fresh "H1f" in
       intros f e Ha; pose proof (H1 f e) as H1f;
       destruct f; cbn in *;
       intuition (try discriminate; try congruence).
  all: repeat match goal with
         | E : DAssignErr _ = DAssignErr _ |- _ => injection E as E; subst
         end; auto.
Qed.

Lemma inv_cause_step_send a s s' :
  inv_cause s -> step env pol a s = Some s' ->
  forall f, at_send f s' -> occurs (is_assign_after f) (trace s') = true.
Proof.
  unfold inv_cause. intros (_ & H2 & _) H.
  step_cases s H.
  all: unfold at_assign, at_send in *; cbn in *.
  all: let f := fresh "f" in let Ha := fresh "Ha" in
       let H2f := fresh "H2f" in
       intros f Ha; pose proof (H2 f) as H2f;
       destruct f; cbn in *; try contradiction; try discriminate;
       try (rewrite ?orb_true_r; auto; fail).
Qed.

Lemma inv_cause_step_order a s s' :
  inv_cause s -> step env pol a s = Some s' ->
  (forall f, each_after (is_failure f) (is_assign_after f) (trace s')) /\
  (forall f, each_after (is_assign_after f) (is_send_quit f) (trace s')).
Proof.
  unfold inv_cause. intros (H1 & H2 & H3 & H4 & _) H.
  step_cases s H.
  all: unfold at_assign, at_send in *; cbn in *.
  all: let f := fresh "f" in
       let H2f := fresh "H2f" in let H1f := fresh "H1f" in
       split; intros f; specialize (H3 f); specialize (H4 f);
       pose proof (H2 f) as H2f; pose proof (fun x => H1 f x) as H1f;
       destruct f; cbn in *;
       repeat (apply each_after_cons;
               [| cbn; intros;
                  first [ discriminate
                        | eapply in_failure; eapply H1f; eauto
                        | finish ]]);
       try assumption.
Qed.

Lemma inv_cause_step_value a s s' :
  inv_cause s -> step env pol a s = Some s' ->
  forall f e,
    In (EvAssignErr f e) (trace s') -> In (EvReturn f (Some e)) (trace s').
Proof.
  unfold inv_cause. intros (H1 & _ & _ & _ & H5) H.
  step_cases s H.
  all: unfold at_assign, at_send in *; cbn in *.
  all: let f := fresh "f" in let e := fresh "e" in
       let Ha := fresh "Ha" in
       let H5f := fresh "H5f" in let H1f := fresh "H1f" in
       intros f e Ha; pose proof (H5 f e) as H5f; pose proof (H1 f e) as H1f;
       destruct f; cbn in *;
       intuition (try discriminate; try congruence).
  all: repeat match goal with
         | E : EvAssignErr _ _ = EvAssignErr _ _ |- _ =>
             injection E as E; subst
         end; auto.
Qed.

Lemma inv_cause_step a s s' :
  inv_cause s -> step env pol a s = Some s' -> inv_cause s'.
Proof.
  intros Hi H. unfold inv_cause.
  split; [exact (inv_cause_step_assign a s s' Hi H)|].
  split; [exact (inv_cause_step_send a s s' Hi H)|].
  destruct (inv_cause_step_order a s s' Hi H) as [A B].
  split; [exact A|]. split; [exact B|].
  exact (inv_cause_step_value a s s' Hi H).
Qed.

Lemma inv_clean_step a s s' :
  env_clean env ->
  inv_clean s -> step env pol a s = Some s' -> inv_clean s'.
Proof.
  unfold env_clean, inv_clean.
  intros (C1 & C2 & C3 & C4 & C5 & C6 & C7 & C8 & C9 & C10)
         (H1 & H2 & H3 & H4 & H5 & H6) H.
  step_cases s H.
  all: try contradiction.
  all: try match goal with
         | E : snd (json_Marshal _ _) = Some _ |- _ =>
             rewrite C7 in E; discriminate E
         | E : Publish_result _ _ _ = Some _ |- _ =>
             rewrite C8 in E; discriminate E
         | E : New_result _ _ = Some _ |- _ =>
             rewrite C2 in E; discriminate E
         end.
  all: try congruence.
  all: try (repeat split; auto; fail).
Qed.

End More.
Ltac compute_before :=
  repeat match goal with
    | |- context [before ?a ?b] =>
        let v := eval vm_compute in (before a b) in
        progress change (before a b) with v
    | H : context [before ?a ?b] |- _ =>
        let v := eval vm_compute in (before a b) in
        progress change (before a b) with v in H
    end.


Section Wiring.

Context {CanonicalFacts Value : Type}.
Variable env : @Env CanonicalFacts.
Variable pol : @Policy CanonicalFacts Value.

#[local] Abbreviation State := (@State CanonicalFacts Value).
#[local] Abbreviation Event := (@Event CanonicalFacts Value).

Lemma inv_wiring_step_connected a s s' :
  inv_wiring s -> step env pol a s = Some s' ->
  forall sig,
    before (connect_line sig) (main_line (main_pc s')) = true ->
    subs s' sig <> None /\ occurs (is_connect sig) (trace s') = true.
Proof.
  unfold inv_wiring. intros (W1 & _) H.
  step_cases s H.
  all: let sig := fresh "sig" in
       let Hl := fresh "Hl" in let W1s := fresh "W1s" in
       intros sig Hl; pose proof (W1 sig) as W1s;
       destruct sig; cbn in *; compute_before;
       try discriminate;
       try (split; [discriminate | reflexivity]);
       try (specialize (W1s eq_refl));
       try (specialize (W1s Hl));
       try (destruct W1s as [A B]; split;
            [first [exact A | discriminate | congruence]
            | rewrite ?B, ?orb_true_r; reflexivity]).
Qed.

Lemma inv_wiring_step_started a s s' :
  inv_wiring s -> step env pol a s = Some s' ->
  forall g sig,
    started s' g = true ->
    before (connect_line sig) (go_line g) = true ->
    subs s' sig <> None.
Proof.
  unfold inv_wiring. intros (W1 & W2 & _) H.
  step_cases s H.
  all: let g := fresh "g" in let sig := fresh "sig" in
       let Hs := fresh "Hs" in let Hl := fresh "Hl" in
       let W1s := fresh "W1s" in let W2s := fresh "W2s" in
       intros g sig Hs Hl;
       pose proof (W1 sig) as W1s; pose proof (W2 g sig) as W2s;
       first
         [ solve [auto]
         | solve [destruct sig; cbn in *; first [discriminate | auto]]
         | destruct g; destruct sig; cbn in *; compute_before;
           first [discriminate | solve [auto] | apply W1s; reflexivity] ].
Qed.

Lemma inv_wiring_step_gone a s s' :
  inv_wiring s -> step env pol a s = Some s' ->
  forall g,
    before (go_line g) (main_line (main_pc s')) = true ->
    occurs (is_go g) (trace s') = true.
Proof.
  unfold inv_wiring. intros (_ & _ & W3 & _) H.
  step_cases s H.
  all: let g := fresh "g" in let Hl := fresh "Hl" in
       let W3g := fresh "W3g" in
       intros g Hl; pose proof (W3 g) as W3g;
       first
         [ solve [auto]
         | destruct g; cbn in *; compute_before;
           first [ discriminate | reflexivity | solve [auto]
                 | rewrite W3g by reflexivity; rewrite ?orb_true_r;
                   reflexivity ] ].
Qed.

Lemma inv_wiring_step_order a s s' :
  inv_wiring s -> step env pol a s = Some s' ->
  (forall g sig,
     before (connect_line sig) (go_line g) = true ->
     each_after (is_connect sig) (is_go g) (trace s')) /\
  (forall g sig,
     before (go_line g) (connect_line sig) = true ->
     each_after (is_go g) (is_connect sig) (trace s')).
Proof.
  unfold inv_wiring. intros (W1 & _ & W3 & W4 & W5) H.
  step_cases s H.
  all: split.
  all: let g := fresh "g" in let sig := fresh "sig" in
       let Hl := fresh "Hl" in
       let W1s := fresh "W1s" in let W3g := fresh "W3g" in
       intros g sig Hl;
       pose proof (W1 sig) as W1s; pose proof (W3 g) as W3g;
       specialize (W4 g sig); specialize (W5 g sig);
       first
         [ solve [trace_step; auto]
         | destruct g; destruct sig; cbn in *; compute_before;
           try discriminate;
           repeat (apply each_after_cons;
                   [| cbn; intros;
                      first [ discriminate
                            | apply W1s; reflexivity
                            | apply W3g; reflexivity
                            | finish ]]);
           auto ].
Qed.

Lemma inv_wiring_step a s s' :
  inv_wiring s -> step env pol a s = Some s' -> inv_wiring s'.
Proof.
  intros Hi H. unfold inv_wiring.
  split; [exact (inv_wiring_step_connected a s s' Hi H)|].
  split; [exact (inv_wiring_step_started a s s' Hi H)|].
  split; [exact (inv_wiring_step_gone a s s' Hi H)|].
  exact (inv_wiring_step_order a s s' Hi H).
Qed.

Lemma inv_wired_step a s s' :
  inv_wiring s -> inv_wired s -> step env pol a s = Some s' -> inv_wired s'.
Proof.
  unfold inv_wiring, inv_wired. intros (W1 & W2 & W3 & _) Hw H.
  step_cases s H.
  all: let Hq := fresh "Hq" in
       intros Hq;
       first
         [ destruct (Hw Hq) as [A B]; split;
           [ let sig := fresh "sig" in
             intros sig; rewrite ?(A sig), ?orb_true_r; reflexivity
           | let g := fresh "g" in
             intros g; rewrite ?(B g), ?orb_true_r; reflexivity ]
         | split;
           [ let sig := fresh "sig" in
             intros sig; apply (W1 sig); destruct sig; reflexivity
           | let g := fresh "g" in
             intros g; apply (W3 g); destruct g; reflexivity ] ].
Qed.

End Wiring.

Section MoreClaims.

Context {CanonicalFacts Value : Type}.
Variable env : @Env CanonicalFacts.
Variable pol : @Policy CanonicalFacts Value.

#[local] Abbreviation State := (@State CanonicalFacts Value).
#[local] Abbreviation Event := (@Event CanonicalFacts Value).

Lemma inv_more_init : inv_more env (init : State).
Proof.
  unfold inv_more, inv_requests, inv_once, inv_startup, inv_cause,
    inv_wiring, inv_wired, each_call, at_assign, at_send; cbn.
  repeat match goal with |- _ /\ _ => split end;
    intros; auto using each_after_nil; try discriminate; try contradiction;
    try (match goal with f : Fn |- _ => destruct f end;
         cbn in *; intuition discriminate);
    try (destruct sig; discriminate); try (destruct g; discriminate);
    repeat split; auto.
Qed.

Lemma inv_both_step a s s' :
  inv env s /\ inv_more env s ->
  step env pol a s = Some s' ->
  inv env s' /\ inv_more env s'.
Proof.
  intros [Hi (H1 & H2 & H3 & H4 & H5 & H6)] H.
  split; [eapply inv_step; eassumption|].
  destruct Hi as (Ha & Hb & _).
  unfold inv_more; repeat match goal with |- _ /\ _ => split end;
    eauto using inv_requests_step, inv_once_step, inv_startup_step,
      inv_cause_step, inv_wiring_step, inv_wired_step.
Qed.

Lemma inv_more_reachable s :
  Reachable env pol s -> inv env s /\ inv_more env s.
Proof.
  apply reachable_ind with (P := fun s => inv env s /\ inv_more env s).
  - split; [apply inv_init | apply inv_more_init].
  - intros a s0 s1. apply inv_both_step.
Qed.

Lemma count_zero_occurs (p : Event -> bool) (tr : list Event) :
  occurs p tr = false -> count p tr = 0.
Proof.
  intros H. destruct (count p tr) eqn:E; [reflexivity|].
  assert (occurs p tr = true) by (apply count_occurs; lia). congruence.
Qed.

Lemma no_assign_last (tr : list Event) :
  occurs is_assign tr = false -> last_assigned tr = None.
Proof.
  unfold occurs. induction tr as [|e tr IH]; cbn; [reflexivity|].
  destruct e; cbn; auto. discriminate.
Qed.

Lemma recv_quit_at_most_once s :
  Reachable env pol s ->
  count is_recv_quit (trace s) <= 1 /\
  count (is_call KillAllWorkers) (trace s) <= 1 /\
  (exited s = true -> startup_ok env = true ->
   count is_recv_quit (trace s) = 1).
Proof.
  intros Hr. destruct (inv_reachable env pol s Hr) as (_ & _ & _ & Hq & _).
  unfold inv_quit, exited in *.
  destruct (main_pc s); repeat split; intros; try discriminate;
    try lia; try (destruct Hq as [(?&?&?)|(?&?)]; (lia || congruence)).
Qed.

(** X1: every termination request that entered [quit] (a completed send of
    a goroutine or a forwarded host signal) is either still in the buffer
    or was read by the main goroutine; the buffer never holds more than
    one, so at most two requests ever get in during a run. *)
Theorem termination_requests_bounded s :
  Reachable env pol s ->
  count is_any_send_quit (trace s) + count is_forwarded (trace s)
  = List.length (quit s) + count is_recv_quit (trace s) /\
  List.length (quit s) <= 1 /\
  count is_any_send_quit (trace s) + count is_forwarded (trace s) <= 2.
Proof.
  intros Hr.
  destruct (inv_more_reachable s Hr) as [_ ((H1 & H2 & _) & _)].
  destruct (recv_quit_at_most_once s Hr) as [H3 _].
  repeat split; [exact H1 | exact H2 | lia].
Qed.

(** X2: when the closure returns before reading [quit], it is because
    [ParseLevel] or a constructor failed: the status is 1, the cause is the
    first such failure in source order, and nothing was wired: no [Connect],
    no [go], no call of [KillAllWorkers]. *)
Theorem startup_failure_exits_early s code cause :
  Reachable env pol s ->
  exit_status s = Some (code, cause) ->
  occurs is_recv_quit (trace s) = false ->
  code = 1%Z /\
  cause = first_startup_failure env /\
  cause <> None /\
  occurs is_any_connect (trace s) = false /\
  occurs is_any_go (trace s) = false /\
  occurs (is_call KillAllWorkers) (trace s) = false.
Proof.
  intros Hr Hx Hq.
  destruct (inv_more_reachable s Hr) as [_ (_ & _ & (H3 & _) & _)].
  unfold exit_status in Hx. destruct (main_pc s); try discriminate.
  injection Hx as -> ->. exact (H3 Hq).
Qed.

Lemma consumer_after_connect (sig : Signal) :
  before (connect_line sig) (go_line (consumer sig)) = true.
Proof. destruct sig; reflexivity. Qed.

(** X3: every goroutine is started after the [Connect] that makes the
    channel it is handed, so a started consumer always has a channel. *)
Theorem consumer_started_after_connect s sig :
  Reachable env pol s ->
  each_after (is_connect sig) (is_go (consumer sig)) (trace s) /\
  (started s (consumer sig) = true -> subs s sig <> None).
Proof.
  intros Hr.
  destruct (inv_more_reachable s Hr)
    as [_ (_ & _ & _ & _ & (_ & W2 & _ & W4 & _) & _)].
  split.
  - apply W4. apply consumer_after_connect.
  - intros Hs. apply (W2 (consumer sig) sig Hs). apply consumer_after_connect.
Qed.

(** X4: the six subscriptions of lines 111-131 are made before the
    process-manager and the dispatcher closures are started, so once either
    runs those six channels exist; the seventh, [SignalProcessBootstrap], is
    connected only after both closures have been started. *)
Theorem closures_started_between_connects s g sig :
  Reachable env pol s ->
  g = process_manager_routine \/ g = dispatcher_routine ->
  sig <> SignalProcessBootstrap ->
  each_after (is_connect sig) (is_go g) (trace s) /\
  (started s g = true -> subs s sig <> None) /\
  each_after (is_go g) (is_connect SignalProcessBootstrap) (trace s).
Proof.
  intros Hr Hg Hsig.
  destruct (inv_more_reachable s Hr)
    as [_ (_ & _ & _ & _ & (_ & W2 & _ & W4 & W5) & _)].
  assert (Hb : before (connect_line sig) (go_line g) = true).
  { destruct Hg as [-> | ->]; destruct sig; try reflexivity;
      contradiction Hsig; reflexivity. }
  assert (Hc : before (go_line g) (connect_line SignalProcessBootstrap) = true).
  { destruct Hg as [-> | ->]; reflexivity. }
  repeat split.
  - apply W4. exact Hb.
  - intros Hs. exact (W2 g sig Hs Hb).
  - apply W5. exact Hc.
Qed.

(** X5: no call site of the three closures or of the shutdown sequence is
    executed twice in a run. *)
Theorem daemon_calls_at_most_once s :
  Reachable env pol s ->
  Forall (fun f => count (is_call f) (trace s) <= 1) daemon_calls.
Proof.
  intros Hr.
  destruct (inv_more_reachable s Hr) as [_ (_ & (O1 & O2 & O3 & O4) & _)].
  destruct (recv_quit_at_most_once s Hr) as (_ & Hk & _).
  unfold each_call in O4. cbn in O4.
  destruct O4 as (R1 & R2 & R3 & R4 & R5).
  assert (Hb : forall b, b2n b <= 1) by (intros []; cbn; lia).
  unfold daemon_calls.
  repeat apply Forall_cons; try apply Forall_nil; cbv beta;
    first [ exact Hk
          | rewrite O1 | rewrite O2 | rewrite O3
          | rewrite R1 | rewrite R2 | rewrite R3 | rewrite R4 | rewrite R5 ];
    apply Hb.
Qed.

Lemma clean_startup_ok : env_clean env -> startup_ok env = true.
Proof.
  intros (C1 & C2 & _). unfold startup_ok. rewrite C1. cbn.
  rewrite !C2. reflexivity.
Qed.

Lemma inv_clean_reachable s :
  env_clean env -> Reachable env pol s -> inv_clean s.
Proof.
  intros Hc. apply reachable_ind.
  - unfold inv_clean; cbn. tauto.
  - intros a s0 s1. apply inv_clean_step. exact Hc.
Qed.

(** X6: in a run in which no call fails, [err] stays nil and no goroutine
    ever sends on [quit]; the daemon can then exit only after a signal of
    the host was forwarded to [quit], and it exits with status 0 and no
    cause. *)
Theorem clean_run_ends_on_host_signal s :
  env_clean env ->
  Reachable env pol s ->
  err s = None /\
  occurs is_any_send_quit (trace s) = false /\
  (forall code cause,
     exit_status s = Some (code, cause) ->
     code = 0%Z /\ cause = None /\ occurs is_forwarded (trace s) = true).
Proof.
  intros Hc Hr.
  destruct (inv_clean_reachable s Hc Hr) as (E1 & E2 & E3 & _).
  split; [exact E1|]. split; [exact E3|].
  intros code cause Hx.
  destruct (inv_more_reachable s Hr) as [Hi ((Q1 & _) & _)].
  destruct Hi as (_ & _ & He & Hq & _).
  pose proof (clean_startup_ok Hc) as Hok.
  destruct Hc as (_ & _ & _ & _ & _ & _ & _ & _ & _ & Hk).
  unfold inv_err, inv_quit, exit_status in *.
  destruct (main_pc s); try discriminate.
  injection Hx as -> ->.
  destruct Hq as [(_ & _ & Hq)|(Hq & _)]; [congruence|].
  assert (Ho : occurs is_recv_quit (trace s) = true)
    by (apply count_occurs; lia).
  specialize (He Ho). unfold final_status in He.
  rewrite Hk, (no_assign_last _ E2) in He. injection He as -> ->.
  repeat split. apply count_occurs.
  rewrite (count_zero_occurs _ _ E3) in Q1. lia.
Qed.

(** Once the main goroutine has read [quit] and the buffer is full again,
    a step changes neither the buffer nor the number of completed sends,
    and moves no goroutine that waits at its send. *)
Lemma drained_step a s s' :
  drained s ->
  step env pol a s = Some s' ->
  drained s' /\
  quit s' = quit s /\
  count is_any_send_quit (trace s') = count is_any_send_quit (trace s) /\
  (pm_pc s = PSendQuit -> pm_pc s' = PSendQuit) /\
  (disp_pc s = DSendQuit -> disp_pc s' = DSendQuit) /\
  (forall k, router_pc s = RSendQuit k -> router_pc s' = RSendQuit k).
Proof.
  unfold drained. intros (H2 & H3) H.
  step_cases s H.
  all: try contradiction; try discriminate.
  all: try match goal with
         | N : ?q <> [], E : Nat.leb (List.length ?q) 0 = true |- _ =>
             destruct q; [congruence | discriminate E]
         end.
  all: unfold count; cbn.
  all: repeat split; auto; try congruence; try discriminate.
Qed.

(** X7: once the main goroutine has read [quit] and the buffer is full
    again, nothing ever empties it: in every continuation the buffer is
    unchanged, no further send completes, and each goroutine that waits at
    its send on [quit] is still there. *)
Theorem blocked_sender_stays_blocked sched : forall s s',
  drained s ->
  exec env pol sched s = Some s' ->
  drained s' /\
  quit s' = quit s /\
  count is_any_send_quit (trace s') = count is_any_send_quit (trace s) /\
  (pm_pc s = PSendQuit -> pm_pc s' = PSendQuit) /\
  (disp_pc s = DSendQuit -> disp_pc s' = DSendQuit) /\
  (forall k, router_pc s = RSendQuit k -> router_pc s' = RSendQuit k).
Proof.
  induction sched as [|a sched IH]; intros s s' Hd He; cbn in He.
  - injection He as <-. split; [exact Hd | repeat split; auto].
  - destruct (step env pol a s) as [s1|] eqn:E; [|discriminate].
    destruct (drained_step a s s1 Hd E) as (D1 & Q1 & C1 & P1 & X1 & R1).
    destruct (IH s1 s' D1 He) as (D2 & Q2 & C2 & P2 & X2 & R2).
    split; [exact D2 | repeat split; try congruence; auto].
Qed.

(** X8: the goroutines ask for shutdown only after a failure: each send on
    [quit] after a call [f] comes after an assignment to [err] for [f],
    each such assignment comes after [f] has returned an error, and the
    error assigned is the error returned. *)
Theorem shutdown_request_only_after_failure s f :
  Reachable env pol s ->
  each_after (is_failure f) (is_assign_after f) (trace s) /\
  each_after (is_assign_after f) (is_send_quit f) (trace s) /\
  (forall e,
     In (EvAssignErr f e) (trace s) -> In (EvReturn f (Some e)) (trace s)).
Proof.
  intros Hr.
  destruct (inv_more_reachable s Hr)
    as [_ (_ & _ & _ & (_ & _ & H3 & H4 & H5) & _)].
  repeat split; auto.
Qed.

(** X9: the main goroutine reads [quit] only when the wiring of lines
    111-160 is complete: all seven subscriptions are connected and all
    eight goroutines have been started. *)
Theorem shutdown_only_after_wiring s :
  Reachable env pol s ->
  occurs is_recv_quit (trace s) = true ->
  (forall sig, occurs (is_connect sig) (trace s) = true) /\
  (forall g, occurs (is_go g) (trace s) = true).
Proof.
  intros Hr Hq.
  destruct (inv_more_reachable s Hr) as [_ (_ & _ & _ & _ & _ & W)].
  exact (W Hq).
Qed.

End MoreClaims.

(** X10: the prologue of the closure never calls a nil function value; it
    falls through to the daemon exactly when neither generation flag is
    set; otherwise it runs the man-page generator if [generate-man-page] is
    set, whatever [generate-markdown] says, and the markdown generator if
    not; it returns the generator's error without printing, or prints the
    generated text and returns nil. *)
Theorem prologue_selects_generator
    (generate_man_page generate_markdown : bool)
    (run : GenerationFunc -> string * option error) :
  prologue generate_man_page generate_markdown run <> NilCall /\
  (prologue generate_man_page generate_markdown run = FallThrough <->
   generate_man_page = false /\ generate_markdown = false) /\
  (forall printed result,
     prologue generate_man_page generate_markdown run
     = Returned printed result ->
     let g := if generate_man_page then ToMan else ToMarkdown in
     result = snd (run g) /\
     printed = match snd (run g) with
               | Some _ => None
               | None => Some (fst (run g))
               end).
Proof.
  unfold prologue.
  destruct generate_man_page, generate_markdown; cbn.
  1-3: split; [destruct (snd (run _)); discriminate|];
       split; [split; [destruct (snd (run _)); discriminate
                      | intros [A B]; discriminate]|];
       intros printed result; destruct (snd (run _)) eqn:E;
       intros H; injection H as <- <-; split; reflexivity.
  split; [discriminate|]. split; [tauto|]. discriminate.
Qed.

(** * The further properties on concrete runs *)

Lemma termination_requests_bounded_witness :
  count is_any_send_quit
    (trace (final env_listen_fails (@any_time string nat) sched_race))
  + count is_forwarded
      (trace (final env_listen_fails (@any_time string nat) sched_race))
  <= 2.
Proof.
  refine (proj2 (proj2 (termination_requests_bounded env_listen_fails
                          any_time
                          (final env_listen_fails any_time sched_race) _))).
  by_run sched_race.
Defined.

Lemma startup_failure_exits_early_witness :
  Some "dispatcher" = first_startup_failure env_no_dispatcher.
Proof.
  refine (proj1 (proj2
            (startup_failure_exits_early env_no_dispatcher
               (@any_time string nat)
               (final env_no_dispatcher any_time sched_no_dispatcher)
               1%Z (Some "dispatcher") _ _ _))).
  - by_run sched_no_dispatcher.
  - vm_compute; reflexivity.
  - vm_compute; reflexivity.
Defined.

Lemma consumer_started_after_connect_witness :
  each_after (is_connect SignalProcessBootstrap)
    (is_go (consumer SignalProcessBootstrap))
    (trace (final env_ok (@any_time string nat) sched_clean)) /\
  (started (final env_ok (@any_time string nat) sched_clean)
     (consumer SignalProcessBootstrap) = true ->
   subs (final env_ok (@any_time string nat) sched_clean)
     SignalProcessBootstrap <> None).
Proof.
  apply (consumer_started_after_connect env_ok any_time).
  by_run sched_clean.
Defined.

Lemma closures_started_between_connects_witness :
  each_after (is_go process_manager_routine)
    (is_connect SignalProcessBootstrap)
    (trace (final env_ok (@any_time string nat) sched_clean)).
Proof.
  refine (proj2 (proj2
            (closures_started_between_connects env_ok any_time
               (final env_ok any_time sched_clean)
               process_manager_routine SignalDispatcherListen _ _ _))).
  - by_run sched_clean.
  - left; reflexivity.
  - discriminate.
Defined.

Lemma daemon_calls_at_most_once_witness :
  Forall
    (fun f =>
       count (is_call f)
         (trace (final env_ok (@any_time string nat) sched_clean)) <= 1)
    daemon_calls.
Proof.
  apply (daemon_calls_at_most_once env_ok any_time).
  by_run sched_clean.
Defined.

Lemma env_ok_clean : env_clean env_ok.
Proof.
  unfold env_clean; cbn. repeat split; intros; try reflexivity.
  destruct f; reflexivity.
Defined.

Lemma clean_run_ends_on_host_signal_witness :
  occurs is_forwarded
    (trace (final env_ok (@any_time string nat) sched_clean)) = true.
Proof.
  refine (proj2 (proj2 (proj2 (proj2
            (clean_run_ends_on_host_signal env_ok any_time
               (final env_ok any_time sched_clean) env_ok_clean _))
            0%Z None _))).
  - by_run sched_clean.
  - vm_compute; reflexivity.
Defined.

Lemma blocked_sender_stays_blocked_witness :
  router_pc
    (final env_connect_then_publish (@any_time string nat)
       (sched_signal_then_failures ++ sched_after_drain))
  = RSendQuit KPublish.
Proof.
  refine (proj2 (proj2 (proj2 (proj2 (proj2
            (blocked_sender_stays_blocked env_connect_then_publish any_time
               sched_after_drain
               (final env_connect_then_publish any_time
                  sched_signal_then_failures)
               (final env_connect_then_publish any_time
                  (sched_signal_then_failures ++ sched_after_drain))
               _ _))))) KPublish _).
  - vm_compute. split; [discriminate | exact I].
  - vm_compute; reflexivity.
  - vm_compute; reflexivity.
Defined.

Lemma shutdown_request_only_after_failure_witness :
  each_after (is_failure Publish) (is_assign_after Publish)
    (trace (final env_connect_then_publish (@any_time string nat)
              sched_connect_then_publish)).
Proof.
  refine (proj1 (shutdown_request_only_after_failure
                   env_connect_then_publish any_time
                   (final env_connect_then_publish any_time
                      sched_connect_then_publish) Publish _)).
  by_run sched_connect_then_publish.
Defined.

Lemma shutdown_only_after_wiring_witness :
  occurs (is_go message_router_routine)
    (trace (final env_ok (@any_time string nat) sched_clean)) = true.
Proof.
  refine (proj2 (shutdown_only_after_wiring env_ok any_time
                   (final env_ok any_time sched_clean) _ _)
            message_router_routine).
  - by_run sched_clean.
  - vm_compute; reflexivity.
Defined.
